(** * pyqsp: the command-line entry point [pyqsp/main.py]

    A shallow embedding of [CommandLine] (main.py, lines 20-150) and of the
    contracts of the synthesis engine it drives.

    [CommandLine] is embedded from the point where it holds its [args]
    namespace (line 79): the namespace is either handed in by the caller
    ("Accepts args, to allow for simple unit testing") or produced by
    [parser.parse_args]; [CommandLine_entry] puts lines 24-26 and 76-77
    in front of it.  The engine's modules ([angle_sequence],
    [response], [ham_sim], [pyqsp.poly], [pyqsp.phases]) are imported by
    main.py and are parameters of the embedding.  Every call that leaves
    main.py and every [print] is recorded, in order, in a trace. *)

From Stdlib Require Import String Ascii List ZArith Bool Lia.
From Stdlib Require Import Floats.PrimFloat.
From Stdlib Require Import QArith Qminmax Qabs.
Import ListNotations.

Close Scope Q_scope.

Local Open Scope string_scope.
Local Open Scope list_scope.

(** ** Python values seen by main.py *)

(** A Python [float] is an IEEE-754 binary64 number. *)
Definition pyfloat : Type := PrimFloat.float.

(** A phase sequence as main.py handles it: the list of angles returned
    by the solver or by a named generator. *)
Definition PhaseSequence : Type := list pyfloat.

(** The exceptions that can cross [CommandLine].  The engine's taxonomy
    (spec section 7) is taken as it is named there. *)
Inductive exn : Type :=
| NameError (name : string)
| ValueError (text : string)
| ApproximationError
| ToleranceUnreachableError
| ConvergenceError (attempts : nat)
| ArgumentError
| OtherError (text : string).

(** A call that may raise. *)
Definition result (A : Type) : Type := (A + exn)%type.

(** [args.poly]: absent ([None]), the list built by argparse's
    [type=float_list], or a raw string handed in by a caller (line 86). *)
Inductive poly_value : Type :=
| PolyNone
| PolyList (coefs : list pyfloat)
| PolyStr (text : string).

(** The [argparse.Namespace] of lines 56-74. *)
Record Namespace : Type := {
  cmd : string;
  verbose : option Z;
  output : string;
  model : string;
  plot : bool;
  hide_plot : bool;
  return_angles : bool;
  poly : poly_value;
  tau : pyfloat;
  kappa : pyfloat;
  degree : Z;
  epsilon : pyfloat;
  seqname : option string;
  seqargs : option (list pyfloat);
  align_first_point_phase : bool;
  plot_magnitude : bool;
  plot_positive_only : bool;
  plot_npts : Z;
  niter : Z
}.

(** The defaults of lines 56-74, for a given command. *)
Definition default_args (c : string) : Namespace := {|
  cmd := c;
  verbose := None;
  output := "";
  model := "Wx";
  plot := false;
  hide_plot := false;
  return_angles := false;
  poly := PolyNone;
  tau := 100%float;
  kappa := 3%float;
  degree := 3;
  epsilon := 0x1.3333333333333p-2%float;
  seqname := None;
  seqargs := None;
  align_first_point_phase := false;
  plot_magnitude := false;
  plot_positive_only := false;
  plot_npts := 100;
  niter := 2
|}.

(** ** Calls that leave main.py *)

(** [angle_sequence.QuantumSignalProcessingPhases(poly, model=..., max_nretries=...)].
    A keyword that the call site does not pass is [None]: the callee's
    own default applies. *)
Record solver_call : Type := {
  sc_poly : list pyfloat;
  sc_model : option string;
  sc_max_nretries : option Z
}.

(** [response.PlotQSPResponse(phiset, pcoefs=..., model=..., ...)]. *)
Record plot_call : Type := {
  pc_phiset : PhaseSequence;
  pc_pcoefs : option (list pyfloat);
  pc_model : string;
  pc_align_first_point_phase : bool;
  pc_plot_magnitude : bool;
  pc_plot_positive_only : bool;
  pc_npts : Z;
  pc_show : bool
}.

Inductive event : Type :=
| EPrint (text : string)
| ESolve (c : solver_call)
| EPlot (c : plot_call)
| EHamSim (tau eps suc : pyfloat)
| EPolyOneOverX (kappa epsilon : pyfloat) (return_coef ensure_bounded : bool)
| EPolyErf (degree : Z) (kappa : pyfloat)
| EGenerate (name : string) (args : list pyfloat).

(** ** Control flow of a Python function body *)

(** How a run of statements ends: it falls through with a value, executes
    [return], calls [sys.exit], or raises. *)
Inductive outcome (A : Type) : Type :=
| Normal (a : A)
| Returned (v : option PhaseSequence)
| Exited (status : Z)
| Raised (e : exn).

Arguments Normal {A} a.
Arguments Returned {A} v.
Arguments Exited {A} status.
Arguments Raised {A} e.

Definition run (A : Type) : Type := (list event * outcome A)%type.

Definition ret {A : Type} (a : A) : run A := ([], Normal a).

Definition bind {A B : Type} (m : run A) (k : A -> run B) : run B :=
  match m with
  | (t, Normal a) => let (t', o) := k a in (t ++ t', o)
  | (t, Returned v) => (t, Returned v)
  | (t, Exited s) => (t, Exited s)
  | (t, Raised e) => (t, Raised e)
  end.

Declare Scope run_scope.
Delimit Scope run_scope with run.
Notation "x <- m ;; k" := (bind m (fun x => k))
  (at level 61, m at next level, right associativity) : run_scope.
Notation "m ;;; k" := (bind m (fun _ => k))
  (at level 61, right associativity) : run_scope.
Local Open Scope run_scope.

Definition print (text : string) : run unit := ([EPrint text], Normal tt).
Definition py_return {A : Type} (v : option PhaseSequence) : run A := ([], Returned v).
Definition sys_exit {A : Type} (status : Z) : run A := ([], Exited status).
Definition raise {A : Type} (e : exn) : run A := ([], Raised e).

(** An external call: the event, then the callee's value or exception. *)
Definition call {A : Type} (ev : event) (r : result A) : run A :=
  match r with
  | inl a => ([ev], Normal a)
  | inr e => ([ev], Raised e)
  end.

(** A call of a builtin: its value or exception, no event. *)
Definition lift {A : Type} (r : result A) : run A :=
  match r with
  | inl a => ret a
  | inr e => raise e
  end.

(** What the caller of a Python function observes. *)
Inductive py_result : Type :=
| Value (v : option PhaseSequence)
| SystemExit (status : Z)
| Exception (e : exn).

(** Falling off the end of a function body returns [None]. *)
Definition finish (m : run unit) : list event * py_result :=
  match m with
  | (t, Normal _) => (t, Value None)
  | (t, Returned v) => (t, Value v)
  | (t, Exited s) => (t, SystemExit s)
  | (t, Raised e) => (t, Exception e)
  end.

(** ** Names visible in [CommandLine]

    Python fixes at compile time which names of a function are local: the
    ones the function binds.  Any other name is loaded from the module's
    globals and then from the builtins, and raises [NameError] when it is
    in neither. *)

(** Names bound somewhere in the body of [CommandLine] (lines 20-150). *)
Definition CommandLine_locals : list string :=
  ["args"; "arglist"; "pkg_resources"; "version"; "help_text"; "parser";
   "float_list"; "phiset"; "coefs"; "telapsed"; "pcoefs"; "pg"].

(** Names bound at the top level of main.py (lines 1-20), with the
    attributes every module has. *)
Definition module_globals : list string :=
  ["os"; "sys"; "pyqsp"; "argparse"; "ham_sim"; "response"; "angle_sequence";
   "phase_generators"; "VAction"; "CommandLine";
   "__name__"; "__doc__"; "__package__"; "__loader__"; "__spec__";
   "__file__"; "__cached__"; "__builtins__"].

(** The functions, types and constants of Python 3's [builtins] module
    (its exception classes all end in Error, Exception, Warning, Exit,
    Interrupt, Iteration or Group). *)
Definition python_builtins : list string :=
  ["abs"; "aiter"; "all"; "anext"; "any"; "ascii"; "bin"; "bool";
   "breakpoint"; "bytearray"; "bytes"; "callable"; "chr"; "classmethod";
   "compile"; "complex"; "copyright"; "credits"; "delattr"; "dict"; "dir";
   "divmod"; "enumerate"; "eval"; "exec"; "exit"; "filter"; "float";
   "format"; "frozenset"; "getattr"; "globals"; "hasattr"; "hash"; "help";
   "hex"; "id"; "input"; "int"; "isinstance"; "issubclass"; "iter"; "len";
   "license"; "list"; "locals"; "map"; "max"; "memoryview"; "min"; "next";
   "object"; "oct"; "open"; "ord"; "pow"; "print"; "property"; "quit";
   "range"; "repr"; "reversed"; "round"; "set"; "setattr"; "slice";
   "sorted"; "staticmethod"; "str"; "sum"; "super"; "tuple"; "type";
   "vars"; "zip"; "__import__"; "__build_class__"; "__debug__";
   "None"; "True"; "False"; "Ellipsis"; "NotImplemented"].

Definition bound_in (names : list string) (n : string) : bool :=
  existsb (String.eqb n) names.

(** ** Text helpers *)

(** [value.split(",")]: the pieces between commas; never empty. *)
Fixpoint split_comma (s : string) : list string :=
  match s with
  | EmptyString => [EmptyString]
  | String c rest =>
      if Ascii.eqb c ","%char then EmptyString :: split_comma rest
      else match split_comma rest with
           | piece :: pieces => String c piece :: pieces
           | [] => [String c EmptyString]
           end
  end.

(** [list(map(f, xs))] for an [f] that may raise: the first exception
    ends the traversal. *)
Fixpoint map_result {A B : Type} (f : A -> result B) (xs : list A) : result (list B) :=
  match xs with
  | [] => inl []
  | x :: rest =>
      match f x with
      | inr e => inr e
      | inl y =>
          match map_result f rest with
          | inr e => inr e
          | inl ys => inl (y :: ys)
          end
      end
  end.

(** Truth value of a Python list or [None]: empty and [None] are false. *)
Definition truthy_list {A : Type} (v : option (list A)) : bool :=
  match v with
  | Some (_ :: _) => true
  | _ => false
  end.

(** Truth value of a Python string or [None]. *)
Definition truthy_str (v : option string) : bool :=
  match v with
  | Some (String _ _) => true
  | _ => false
  end.

(** Truth value of [args.poly]. *)
Definition truthy_poly (v : poly_value) : bool :=
  match v with
  | PolyNone => false
  | PolyList l => truthy_list (Some l)
  | PolyStr s => truthy_str (Some s)
  end.

(** ** The named generators as main.py uses them

    An object of the registry [pyqsp.phases.phase_generators], after
    instantiation (line 131): its [help()] text and its [generate]. *)
Record PhaseGenerator : Type := {
  help : string;
  generate : list pyfloat -> result PhaseSequence
}.

(** A Python dict keeps its keys in insertion order; [d[k]] and [k in d]
    find the entry of key [k]. *)
Fixpoint dict_get {V : Type} (d : list (string * V)) (k : string) : option V :=
  match d with
  | [] => None
  | (k', v) :: rest => if String.eqb k k' then Some v else dict_get rest k
  end.

Definition dict_keys {V : Type} (d : list (string * V)) : list string := map fst d.

Definition dict_mem {V : Type} (d : list (string * V)) (k : string) : bool :=
  match dict_get d k with Some _ => true | None => false end.

(** ** What main.py imports *)

Record Env : Type := {
  (** [pkg_resources.require("pyqsp")[0].version] *)
  version : string;
  (** [str] of a list of floats, as an f-string formats it *)
  str_of_floats : list pyfloat -> string;
  (** [str] of the object bound to a global or builtin name *)
  str_of_global : string -> string;
  (** the builtin [float] applied to a string *)
  py_float : string -> result pyfloat;
  QuantumSignalProcessingPhases : solver_call -> result PhaseSequence;
  PlotQSPResponse : plot_call -> result unit;
  ham_sim : pyfloat -> pyfloat -> pyfloat -> result (PhaseSequence * pyfloat);
  PolyOneOverX : pyfloat -> pyfloat -> bool -> bool -> result (list pyfloat);
  PolyErf : Z -> pyfloat -> result (list pyfloat);
  phase_generators : list (string * PhaseGenerator)
}.

(** ** [CommandLine] *)

Section CommandLine.

Variable E : Env.

(** Lines 27-49: the usage text, with the version filled in. *)
Definition help_text : string :=
  "usage: pyqsp [options] cmd

Version: " ++ version E ++ "
Commands:

    poly2angles - compute QSP phase angles for the specified polynomial (use --poly)
    hamsim      - compute QSP phase angles for Hamiltonian simulation using the Jacobi-Anger expansion of exp(-i tau sin(2 theta))
    invert      - compute QSP phase angles for matrix inversion, i.e. a polynomial approximation to 1/a, for given kappa and epsilon parameter values
    poly_sign   - compute QSP phase angles for a polynomial approximation to the sign function, using erf(kappa*x)
    angles      - generate QSP phase angles for the specified --seqname and --seqargs

Examples:

    pyqsp --poly=-1,0,2 poly2angles
    pyqsp --poly=-1,0,2 --plot --align-first-point-phase poly2angles
    pyqsp --model=Wz --poly=0,0,0,1 --plot  poly2angles
    pyqsp --plot --tau 10 hamsim
    pyqsp --plot invert
    pyqsp --plot-npts=4000 --plot-positive-only --plot-magnitude --plot --seqargs=1000,1.0e-20 --seqname fpsearch angles
    pyqsp --plot-npts=100 --plot-magnitude --plot --seqargs=23 --seqname erf_step angles
    pyqsp --plot-npts=100 --plot-positive-only --plot --seqargs=23 --seqname erf_step angles

".

(** Lines 53-54 (and the same expression at line 87):
    [list(map(float, value.split(",")))]. *)
Definition float_list (value : string) : result (list pyfloat) :=
  map_result (py_float E) (split_comma value).

(** Loading a name that [CommandLine] does not bind: module globals, then
    builtins, else [NameError]. *)
Definition load_global (name : string) : run string :=
  if bound_in module_globals name || bound_in python_builtins name
  then ret (str_of_global E name)
  else raise (NameError name).

(** The call of [response.PlotQSPResponse] that closes every command
    (lines 90-95, 99-104, 109-114, 120-125, 137-142); the call sites differ
    in [pcoefs] and [model] only. *)
Definition plot_response (a : Namespace) (phiset : PhaseSequence)
    (pcoefs : option (list pyfloat)) (m : string) : run unit :=
  if plot a then
    let c := {| pc_phiset := phiset;
                pc_pcoefs := pcoefs;
                pc_model := m;
                pc_align_first_point_phase := align_first_point_phase a;
                pc_plot_magnitude := plot_magnitude a;
                pc_plot_positive_only := plot_positive_only a;
                pc_npts := plot_npts a;
                pc_show := negb (hide_plot a) |} in
    call (EPlot c) (PlotQSPResponse E c)
  else ret tt.

(** The call of [angle_sequence.QuantumSignalProcessingPhases]. *)
Definition call_solver (c : solver_call) : run PhaseSequence :=
  call (ESolve c) (QuantumSignalProcessingPhases E c).

(** Lines 81-95. *)
Definition cmd_poly2angles (a : Namespace) : run (option PhaseSequence) :=
  coefs <- (if negb (truthy_poly (poly a)) then
              print "[pyqsp.main] must specify polynomial coeffients using --poly, e.g. --poly -1,0,2" ;;;
              sys_exit 0
            else
              match poly a with
              | PolyStr s => lift (float_list s)
              | PolyList l => ret l
              | PolyNone => ret []
              end) ;;
  print ("[pyqsp] polynomial coefficients=" ++ str_of_floats E coefs) ;;;
  phiset <- call_solver {| sc_poly := coefs; sc_model := Some (model a);
                     sc_max_nretries := None |} ;;
  plot_response a phiset (Some coefs) (model a) ;;;
  ret (Some phiset).

(** Lines 97-104. *)
Definition cmd_hamsim (a : Namespace) : run (option PhaseSequence) :=
  let eps := 0x1.a36e2eb1c432dp-14%float in        (* 1.0e-4 *)
  let suc := (1 - 0x1.a36e2eb1c432dp-14)%float in  (* 1 - 1.0e-4 *)
  r <- call (EHamSim (tau a) eps suc) (ham_sim E (tau a) eps suc) ;;
  let phiset := fst r in
  plot_response a phiset None "Wz" ;;;
  ret (Some phiset).

(** Lines 106-114. *)
Definition cmd_invert (a : Namespace) : run (option PhaseSequence) :=
  pcoefs <- call (EPolyOneOverX (kappa a) (epsilon a) true true)
                 (PolyOneOverX E (kappa a) (epsilon a) true true) ;;
  phiset <- call_solver {| sc_poly := pcoefs; sc_model := None;
                     sc_max_nretries := Some (niter a) |} ;;
  plot_response a phiset (Some pcoefs) "Wx" ;;;
  ret (Some phiset).

(** Lines 116-125. *)
Definition cmd_poly_erf (a : Namespace) : run (option PhaseSequence) :=
  pcoefs <- call (EPolyErf (degree a) (kappa a)) (PolyErf E (degree a) (kappa a)) ;;
  print ("[pyqsp] polynomial coefs = " ++ str_of_floats E pcoefs) ;;;
  phiset <- call_solver {| sc_poly := pcoefs; sc_model := None;
                     sc_max_nretries := Some (niter a) |} ;;
  plot_response a phiset (Some pcoefs) "Wx" ;;;
  ret (Some phiset).

(** Line 128: [not args.seqname or not args.seqname in phase_generators]. *)
Definition seqname_unknown (a : Namespace) : bool :=
  negb (truthy_str (seqname a)) ||
  match seqname a with
  | Some n => negb (dict_mem (phase_generators E) n)
  | None => true
  end.

(** Lines 127-142. *)
Definition cmd_angles (a : Namespace) : run (option PhaseSequence) :=
  if seqname_unknown a then
    print ("Known phase generators: " ++
           String.concat "," (dict_keys (phase_generators E))) ;;;
    py_return None
  else
    match seqname a with
    | None => py_return None   (* excluded by line 128 *)
    | Some n =>
        match dict_get (phase_generators E) n with
        | None => py_return None   (* excluded by line 128 *)
        | Some pg =>
            if negb (truthy_list (seqargs a)) then
              print (help pg) ;;;
              py_return None
            else
              let xs := match seqargs a with Some l => l | None => [] end in
              phiset <- call (EGenerate n xs) (generate pg xs) ;;
              print ("[pysqp] phiset=" ++ str_of_floats E phiset) ;;;
              plot_response a phiset None "Wx" ;;;
              ret (Some phiset)
        end
    end.

(** Lines 145-147: the fallback branch.  The f-string reads the name
    [cmd], which [CommandLine] never binds (the command is [args.cmd]). *)
Definition cmd_unknown (a : Namespace) : run (option PhaseSequence) :=
  c <- load_global "cmd" ;;
  print ("[pyqsp.main] Unknown command " ++ c) ;;;
  print help_text ;;;
  ret None.

(** Lines 79-147: [phiset = None], then the chain of [if]/[elif] on
    [args.cmd]; the value is [phiset] as line 149 finds it. *)
Definition dispatch (a : Namespace) : run (option PhaseSequence) :=
  if cmd a =? "poly2angles" then cmd_poly2angles a
  else if cmd a =? "hamsim" then cmd_hamsim a
  else if cmd a =? "invert" then cmd_invert a
  else if cmd a =? "poly_erf" then cmd_poly_erf a
  else if cmd a =? "angles" then cmd_angles a
  else cmd_unknown a.

(** Lines 149-150: [if (phiset is not None) and args.return_angles:
    return phiset]; otherwise the body ends. *)
Definition return_phiset (a : Namespace) (phiset : option PhaseSequence) : run unit :=
  match phiset with
  | Some p => if return_angles a then py_return (Some p) else ret tt
  | None => ret tt
  end.

Definition CommandLine (a : Namespace) : list event * py_result :=
  finish (phiset <- dispatch a ;; return_phiset a phiset).

End CommandLine.

(** The trace and the result of a call. *)
Definition trace_of (r : list event * py_result) : list event := fst r.
Definition result_of (r : list event * py_result) : py_result := snd r.

(** The commands that [CommandLine] dispatches on (lines 81-127). *)
Definition known_commands : list string :=
  ["poly2angles"; "hamsim"; "invert"; "poly_erf"; "angles"].

(** ** NamedSequenceGenerator (spec section 4.4) *)

Module NamedSequenceGenerator.

(** Modelled from the spec: [pyqsp/phases.py], the registry of named
    generators, is not among the sources.  Section 4.4: a generator exposes
    a description of its required scalar arguments and [generate] over its arguments;
    "the generator itself must validate argument arity and fail with
    ArgumentError on mismatch".  The closed-form construction is the
    generator's own and is a field here. *)
Record Construction : Type := {
  description : string;
  arity : nat;
  closed_form : list pyfloat -> PhaseSequence
}.

(** Modelled from the spec: [generate] of section 4.4, which validates
    the number of arguments before it builds the sequence. *)
Definition generate_checked (g : Construction) (args : list pyfloat) : result PhaseSequence :=
  if (length args =? arity g)%nat then inl (closed_form g args)
  else inr ArgumentError.

(** The object main.py obtains at line 131. *)
Definition generator (g : Construction) : PhaseGenerator :=
  {| help := description g; generate := generate_checked g |}.

(** Modelled from the spec: the two representative constructions of
    section 4.4, a fixed-point search sequence "parameterized by (length,
    delta, gamma)" and an erf-based step sequence "parameterized by a
    single scale kappa", under the names main.py's usage text gives them
    (lines 45-47). *)
Definition registry (fpsearch erf_step : list pyfloat -> PhaseSequence)
  : list (string * PhaseGenerator) :=
  [("fpsearch", generator {| description := "length,delta,gamma";
                             arity := 3; closed_form := fpsearch |});
   ("erf_step", generator {| description := "kappa";
                             arity := 1; closed_form := erf_step |})].

End NamedSequenceGenerator.

(** ** A small environment to run [CommandLine] in

    Test doubles for the imported modules: the solver answers with one
    zero angle per coefficient, the builders with fixed coefficient lists,
    plotting succeeds, and the registry is the one of section 4.4 with
    constructions that answer with [length] zeros, resp. with [kappa]. *)
Definition test_env : Env := {|
  version := "0.0.0";
  str_of_floats := fun xs => ("[" ++ String.concat ", " (map (fun _ => "_") xs) ++ "]")%string;
  str_of_global := fun n => ("<" ++ n ++ ">")%string;
  py_float := fun s => inr (ValueError s);
  QuantumSignalProcessingPhases := fun c => inl (map (fun _ => 0%float) (sc_poly c));
  PlotQSPResponse := fun _ => inl tt;
  ham_sim := fun _ _ _ => inl ([0%float; 0%float], 0%float);
  PolyOneOverX := fun _ _ _ _ => inl [0%float; 1%float];
  PolyErf := fun _ _ => inl [0%float; 1%float];
  phase_generators :=
    NamedSequenceGenerator.registry (fun xs => map (fun _ => 0%float) xs) (fun xs => xs)
|}.

(** [pyqsp --poly=-1,0,2 --niter=n poly2angles]. *)
Definition args_poly2angles (n : Z) : Namespace := {|
  cmd := "poly2angles"; verbose := None; output := ""; model := "Wx";
  plot := false; hide_plot := false; return_angles := false;
  poly := PolyList [(-1)%float; 0%float; 2%float];
  tau := 100%float; kappa := 3%float; degree := 3;
  epsilon := 0x1.3333333333333p-2%float;
  seqname := None; seqargs := None;
  align_first_point_phase := false; plot_magnitude := false;
  plot_positive_only := false; plot_npts := 100; niter := n
|}.

(** [pyqsp --model=Wz --plot invert]. *)
Definition args_invert_Wz : Namespace := {|
  cmd := "invert"; verbose := None; output := ""; model := "Wz";
  plot := true; hide_plot := false; return_angles := false;
  poly := PolyNone;
  tau := 100%float; kappa := 3%float; degree := 3;
  epsilon := 0x1.3333333333333p-2%float;
  seqname := None; seqargs := None;
  align_first_point_phase := false; plot_magnitude := false;
  plot_positive_only := false; plot_npts := 100; niter := 2
|}.

(** [pyqsp --seqname n --seqargs xs angles]. *)
Definition args_angles (n : option string) (xs : option (list pyfloat)) : Namespace := {|
  cmd := "angles"; verbose := None; output := ""; model := "Wx";
  plot := false; hide_plot := false; return_angles := false;
  poly := PolyNone;
  tau := 100%float; kappa := 3%float; degree := 3;
  epsilon := 0x1.3333333333333p-2%float;
  seqname := n; seqargs := xs;
  align_first_point_phase := false; plot_magnitude := false;
  plot_positive_only := false; plot_npts := 100; niter := 2
|}.

(** [test_env] with a [float] that reads the numerals of the usage text's
    first example, [--poly=-1,0,2], and rejects every other string. *)
Definition reading_env : Env := {|
  version := version test_env;
  str_of_floats := str_of_floats test_env;
  str_of_global := str_of_global test_env;
  py_float := fun s =>
    match dict_get [("-1", (-1)%float); ("0", 0%float); ("2", 2%float)] s with
    | Some x => inl x
    | None => inr (ValueError s)
    end;
  QuantumSignalProcessingPhases := QuantumSignalProcessingPhases test_env;
  PlotQSPResponse := PlotQSPResponse test_env;
  ham_sim := ham_sim test_env;
  PolyOneOverX := PolyOneOverX test_env;
  PolyErf := PolyErf test_env;
  phase_generators := phase_generators test_env
|}.

(** [test_env] with a solver that gives up after two attempts. *)
Definition failing_env : Env := {|
  version := version test_env;
  str_of_floats := str_of_floats test_env;
  str_of_global := str_of_global test_env;
  py_float := py_float test_env;
  QuantumSignalProcessingPhases := fun _ => inr (ConvergenceError 2);
  PlotQSPResponse := PlotQSPResponse test_env;
  ham_sim := ham_sim test_env;
  PolyOneOverX := PolyOneOverX test_env;
  PolyErf := PolyErf test_env;
  phase_generators := phase_generators test_env
|}.

(** [pyqsp --poly=-1,0,2 --plot --return-angles --seqname erf_step
    --seqargs 23 c], for a command [c]. *)
Definition args_full (c : string) : Namespace := {|
  cmd := c; verbose := None; output := ""; model := "Wx";
  plot := true; hide_plot := false; return_angles := true;
  poly := PolyList [(-1)%float; 0%float; 2%float];
  tau := 100%float; kappa := 3%float; degree := 3;
  epsilon := 0x1.3333333333333p-2%float;
  seqname := Some "erf_step"; seqargs := Some [23%float];
  align_first_point_phase := false; plot_magnitude := false;
  plot_positive_only := false; plot_npts := 100; niter := 2
|}.

(** ** The synthesis engine (spec sections 3, 4.2 and 4.3) *)

(** Modelled from the spec: the solver [pyqsp/angle_sequence.py] and the
    simulator [pyqsp/response.py] are not among the sources; every
    definition of this module follows sections 3, 4.2 and 4.3 of the spec.
    The engine's numbers are the reals of the spec; rationals stand for
    them here (every finite binary64 value is one), and the numerical
    steps that the spec leaves to the literature (section 9) are the
    fields of [Kernels]. *)

Module AngleSolver.

Local Open Scope Q_scope.

(** Section 3, "the circuit model tag (X-type or Z-type signal rotation)". *)
Inductive ModelTag : Type := Wx | Wz.

Inductive Basis : Type := Monomial | Chebyshev.

Inductive Parity : Type := Even | Odd | NoParity.

(** Modelled from the spec: PolynomialModel of section 3, "coefficients
    indexed 0..d in a declared basis; attributes: degree d, parity,
    declared value bound". *)
Record PolynomialModel : Type := {
  coefficients : list Q;
  basis : Basis;
  degree : nat;
  parity : Parity;
  bound : Q
}.

(** Modelled from the spec: PhaseSequence of section 3, the angles "plus
    the circuit model tag it was solved for". *)
Record PhaseSequence : Type := {
  angles : list Q;
  tag : ModelTag
}.

(** Modelled from the spec: ConvergenceRecord of section 3, "iteration
    count, residual error, and retry count"; the residual is absent while
    no attempt has run to its end. *)
Record ConvergenceRecord : Type := {
  iterations : nat;
  residual : option Q;
  retries : nat
}.

(** Modelled from the spec: the outcomes of [solve] (sections 3, 4.2, 7):
    a validated sequence, a polynomial "rejected before solving", or the
    terminal [ConvergenceError] "carrying the last residual and iteration
    count". *)
Inductive solve_result : Type :=
| Solved (phi : PhaseSequence)
| Rejected
| ConvergenceError (last : ConvergenceRecord).

Definition complex : Type := (Q * Q)%type.
Definition matrix : Type := ((complex * complex) * (complex * complex))%type.

Definition cadd (x y : complex) : complex := (fst x + fst y, snd x + snd y).
Definition csub (x y : complex) : complex := (fst x - fst y, snd x - snd y).
Definition cmul (x y : complex) : complex :=
  (fst x * fst y - snd x * snd y, fst x * snd y + snd x * fst y).

Definition mmul (m n : matrix) : matrix :=
  let '((a, b), (c, d)) := m in
  let '((e, f), (g, h)) := n in
  ((cadd (cmul a e) (cmul b g), cadd (cmul a f) (cmul b h)),
   (cadd (cmul c e) (cmul d g), cadd (cmul c f) (cmul d h))).

Definition identity : matrix := (((1, 0), (0, 0)), ((0, 0), (1, 0))).

(** The value of a polynomial at [a], in either basis: Horner's rule, and
    the Chebyshev recurrence T0 = 1, T1 = a, T(k+1) = 2 a Tk - T(k-1). *)
Fixpoint eval_monomial (cs : list Q) (a : Q) : Q :=
  match cs with
  | [] => 0
  | c :: rest => c + a * eval_monomial rest a
  end.

Fixpoint eval_chebyshev (cs : list Q) (a t0 t1 : Q) : Q :=
  match cs with
  | [] => 0
  | c :: rest => c * t0 + eval_chebyshev rest a t1 (2 * a * t1 - t0)
  end.

Definition eval_poly (P : PolynomialModel) (a : Q) : Q :=
  match basis P with
  | Monomial => eval_monomial (coefficients P) a
  | Chebyshev => eval_chebyshev (coefficients P) a 1 a
  end.

(** Modelled from the spec: section 4.3, "Sampling is uniform over the
    requested point count and domain half-range": [npts] points from -1
    (from 0 when only the positive half is asked for) to 1. *)
Definition uniform_samples (npts : nat) (positive_only : bool) : list Q :=
  let lo := if positive_only then 0 else -(1) in
  map (fun i => Qred (lo + (1 - lo) * (inject_Z (Z.of_nat i) / inject_Z (Z.of_nat (pred npts)))))
      (seq 0 npts).

Definition in_domain (positive_only : bool) (a : Q) : bool :=
  Qle_bool (if positive_only then 0 else -(1)) a && Qle_bool a 1.

(** Coefficients that must vanish under a parity: every second one,
    starting with the first unless [skip]. *)
Fixpoint every_second_zero (skip : bool) (cs : list Q) : bool :=
  match cs with
  | [] => true
  | c :: rest => (skip || Qeq_bool c 0) && every_second_zero (negb skip) rest
  end.

Definition parity_holds (P : PolynomialModel) : bool :=
  match parity P with
  | Even => every_second_zero true (coefficients P)
  | Odd => every_second_zero false (coefficients P)
  | NoParity => true
  end.

(** Modelled from the spec: the phase-alignment transform of section 4.4,
    which "shifts all angles by a common rotation" and "produces a new
    PhaseSequence". *)
Definition align (offset : Q) (phi : PhaseSequence) : PhaseSequence :=
  {| angles := map (fun x => x + offset) (angles phi); tag := tag phi |}.

Section Solver.

(** The numerical steps the spec does not fix (section 9, open question). *)
Record Kernels : Type := {
  (** the signal-encoding rotation at [a], per model tag *)
  signal_rotation : ModelTag -> Q -> matrix;
  (** the phase rotation of one angle *)
  phase_rotation : Q -> matrix;
  (** the coefficient ratio of a stage of the degree-down solve *)
  stage_ratio : ModelTag -> list Q -> Q;
  (** arcsin or arccos, per model tag *)
  inverse_trig : ModelTag -> Q -> Q;
  (** the residual polynomial after one layer is unwound *)
  unwind : ModelTag -> list Q -> Q -> list Q;
  (** the perturbed or re-scaled initial condition of an attempt *)
  initial_condition : nat -> PolynomialModel -> list Q;
  (** the solver's declared tolerance; a negative one accepts nothing *)
  tolerance : Q;
  (** the samples the solver validates on besides the two ends of the
      domain, -1 and 1, which it always takes *)
  interior_points : nat
}.

Variable K : Kernels.

(** Modelled from the spec: section 4.3, "interleave it with each
    phase-rotation matrix in sequence order, accumulate the matrix
    product, and read off the designated matrix entry". *)
Fixpoint circuit (m : ModelTag) (a : Q) (phis : list Q) : matrix :=
  match phis with
  | [] => identity
  | phi :: rest =>
      match rest with
      | [] => phase_rotation K phi
      | _ :: _ => mmul (phase_rotation K phi)
                       (mmul (signal_rotation K m a) (circuit m a rest))
      end
  end.

Definition response_at (phi : PhaseSequence) (a : Q) : complex :=
  fst (fst (circuit (tag phi) a (angles phi))).

(** Modelled from the spec: [ResponseSimulator.evaluate] of section 4.3,
    whose only failure is a sample outside the domain; the curve is the
    list of (sample, response) pairs. *)
Definition evaluate (phi : PhaseSequence) (positive_only : bool) (points : list Q)
  : option (list (Q * complex)) :=
  if forallb (in_domain positive_only) points
  then Some (map (fun a => (a, response_at phi a)) points)
  else None.

(** How far a response value is from the target at [a]: the square of
    the distance between the two complex numbers, which is exact on
    rationals where the distance itself is not. *)
Definition deviation (P : PolynomialModel) (point : Q * complex) : Q :=
  let d := csub (snd point) (eval_poly P (fst point), 0) in
  fst d * fst d + snd d * snd d.

(** The number of samples of the solver: the two ends and the interior. *)
Definition npts : nat := S (S (interior_points K)).

(** The dense sample set of the solver. *)
Definition dense_samples : list Q := uniform_samples npts false.

(** The residual of a curve: its largest deviation (a squared distance). *)
Definition residual_of (P : PolynomialModel) (curve : list (Q * complex)) : Q :=
  fold_right (fun point r => Qmax (deviation P point) r) 0 curve.

(** The residual does not exceed the tolerance: the tolerance is not
    negative, and the squared distances stay within its square. *)
Definition within_tolerance (r : Q) : bool :=
  Qle_bool 0 (tolerance K) && Qle_bool r (tolerance K * tolerance K).

(** Modelled from the spec: section 3, a polynomial "violating its
    declared parity or exceeding its declared bound is rejected before
    solving", and "coefficients beyond degree d are absent". *)
Definition well_formed (P : PolynomialModel) : bool :=
  (length (coefficients P) =? S (degree P))%nat
  && parity_holds P
  && forallb (fun a => Qle_bool (Qabs (eval_poly P a)) (bound P)) dense_samples.

(** Modelled from the spec: one attempt of section 4.2, degree-down.  Each
    stage fixes one angle by an inverse-trigonometric solve of a
    coefficient ratio "that must lie in [-1,1]" (otherwise the attempt is
    abandoned), unwinds one layer, and "recurses until degree 0". *)
Fixpoint degree_down (m : ModelTag) (d : nat) (cs : list Q) : option (list Q) :=
  let r := stage_ratio K m cs in
  if Qle_bool (-(1)) r && Qle_bool r 1 then
    let phi := inverse_trig K m r in
    match d with
    | O => Some [phi]
    | S d' =>
        match degree_down m d' (unwind K m cs phi) with
        | Some phis => Some (phi :: phis)
        | None => None
        end
    end
  else None.

(** Modelled from the spec: the end of an attempt (section 4.2): the
    sequence is checked with the response simulator on the dense sample
    set, and is accepted when the residual does not exceed the tolerance. *)
Definition attempt (k : nat) (P : PolynomialModel) (m : ModelTag)
  : PhaseSequence + option Q :=
  match degree_down m (degree P) (initial_condition K k P) with
  | None => inr None
  | Some phis =>
      let phi := {| angles := phis; tag := m |} in
      match evaluate phi false dense_samples with
      | None => inr None
      | Some curve =>
          let r := residual_of P curve in
          if within_tolerance r then inl phi else inr (Some r)
      end
  end.

(** Modelled from the spec: the bounded retry loop of sections 4.2 and 9:
    attempt [k], and on failure either retry while the budget lasts or
    end in [ConvergenceError] with the last residual and the counts. *)
Fixpoint retry (budget k : nat) (P : PolynomialModel) (m : ModelTag) : solve_result :=
  match attempt k P m with
  | inl phi => Solved phi
  | inr r =>
      match budget with
      | O => ConvergenceError {| iterations := S k; residual := r; retries := k |}
      | S budget' => retry budget' (S k) P m
      end
  end.

(** Modelled from the spec: [solve(polynomial, model, max_retries)] of
    section 4.2. *)
Definition solve (P : PolynomialModel) (m : ModelTag) (max_retries : nat) : solve_result :=
  if well_formed P then retry max_retries 0 P m else Rejected.

End Solver.

(** An instance of the kernels over the rationals, exact on the samples
    -1, 0 and 1 for sequences of zero angles.  The X-type signal rotation
    is [[a, i s], [i s, a]] with s = sqrt(1 - a^2), which is 0 at -1 and
    1 and is 1 at 0 (no denser uniform grid has rational s throughout).
    The phase rotation of [phi] is the diagonal of the unit numbers c + i s
    and c - i s with c = (1 - t^2) / (1 + t^2), s = 2 t / (1 + t^2) and
    t = phi / 2: a rotation for every [phi], and the identity at 0.  The
    degree-down steps are those of a sequence of zero angles. *)
Definition exact_kernels : Kernels := {|
  signal_rotation := fun _ a =>
    let s := if Qeq_bool (a * a) 1 then 0 else 1 in
    (((a, 0), (0, s)), ((0, s), (a, 0)));
  phase_rotation := fun phi =>
    let t := phi / 2 in
    let c := (1 - t * t) / (1 + t * t) in
    let s := (2 * t) / (1 + t * t) in
    (((c, s), (0, 0)), ((0, 0), (c, - s)));
  stage_ratio := fun _ _ => 0;
  inverse_trig := fun _ r => r;
  unwind := fun _ cs _ => removelast cs;
  initial_condition := fun _ P => coefficients P;
  tolerance := 1 # 1000;
  interior_points := 1
|}.

(** The polynomial P(a) = a. *)
Definition linear : PolynomialModel := {|
  coefficients := [0; 1];
  basis := Monomial;
  degree := 1;
  parity := Odd;
  bound := 1
|}.

End AngleSolver.

(** ** Properties of a call, as predicates on its events and result *)

(** "The tag selected via --model is the tag passed to the angle solver
    and response simulator." *)
Definition carries_model (a : Namespace) (ev : event) : Prop :=
  match ev with
  | ESolve c => sc_model c = Some (model a)
  | EPlot c => pc_model c = model a
  | _ => True
  end.

(** What each command does with the tag: [poly2angles] passes
    [args.model] on; [hamsim] plots with the literal "Wz"; the other
    commands plot with the literal "Wx" and leave the solver's [model]
    keyword out. *)
Definition carries_model_of_command (a : Namespace) (ev : event) : Prop :=
  match ev with
  | ESolve c =>
      sc_model c = if cmd a =? "poly2angles" then Some (model a) else None
  | EPlot c =>
      pc_model c = if cmd a =? "poly2angles" then model a
                   else if cmd a =? "hamsim" then "Wz" else "Wx"
  | _ => True
  end.

(** "The retry budget selected via --niter is passed to the solver as its
    max-retries parameter." *)
Definition carries_niter (a : Namespace) (ev : event) : Prop :=
  match ev with
  | ESolve c => sc_max_nretries c = Some (niter a)
  | _ => True
  end.

(** "CommandLine returns the computed phase sequence if and only if the
    flag is set and a phase sequence was produced; in every other case it
    returns None": the value the caller would receive. *)
Definition claimed_return (E : Env) (a : Namespace) : py_result :=
  match snd (dispatch E a) with
  | Normal (Some p) => if return_angles a then Value (Some p) else Value None
  | _ => Value None
  end.

(** A run whose [return] statements, if any, are bare. *)
Definition bare {A : Type} (m : run A) : Prop :=
  forall v, snd m = Returned v -> v = None.

(** ** [VAction] (lines 12-16) *)

(** [setattr(args, "verbose", v)]. *)
Definition set_verbose (a : Namespace) (v : option Z) : Namespace := {|
  cmd := cmd a; verbose := v; output := output a; model := model a;
  plot := plot a; hide_plot := hide_plot a; return_angles := return_angles a;
  poly := poly a; tau := tau a; kappa := kappa a; degree := degree a;
  epsilon := epsilon a; seqname := seqname a; seqargs := seqargs a;
  align_first_point_phase := align_first_point_phase a;
  plot_magnitude := plot_magnitude a;
  plot_positive_only := plot_positive_only a;
  plot_npts := plot_npts a; niter := niter a
|}.

(** The namespace with another [output] (option [-o]). *)
Definition set_output (a : Namespace) (o : string) : Namespace := {|
  cmd := cmd a; verbose := verbose a; output := o; model := model a;
  plot := plot a; hide_plot := hide_plot a; return_angles := return_angles a;
  poly := poly a; tau := tau a; kappa := kappa a; degree := degree a;
  epsilon := epsilon a; seqname := seqname a; seqargs := seqargs a;
  align_first_point_phase := align_first_point_phase a;
  plot_magnitude := plot_magnitude a;
  plot_positive_only := plot_positive_only a;
  plot_npts := plot_npts a; niter := niter a
|}.

(** The namespace with another [poly]. *)
Definition set_poly (a : Namespace) (p : poly_value) : Namespace := {|
  cmd := cmd a; verbose := verbose a; output := output a; model := model a;
  plot := plot a; hide_plot := hide_plot a; return_angles := return_angles a;
  poly := p; tau := tau a; kappa := kappa a; degree := degree a;
  epsilon := epsilon a; seqname := seqname a; seqargs := seqargs a;
  align_first_point_phase := align_first_point_phase a;
  plot_magnitude := plot_magnitude a;
  plot_positive_only := plot_positive_only a;
  plot_npts := plot_npts a; niter := niter a
|}.

(** [values.count('v')] for the list argparse hands to an action. *)
Definition py_count (x : string) (values : list string) : Z :=
  Z.of_nat (count_occ string_dec values x).

(** Line 14: [getattr(args, self.dest, 0) or 0]; the attribute is there
    (argparse sets it to [None] first), and [None] and 0 both give 0. *)
Definition curval (a : Namespace) : Z :=
  match verbose a with
  | Some n => n
  | None => 0
  end.

(** Lines 13-16: [VAction.__call__(parser, args, values)].  The option is
    declared with [nargs=0] and [dest='verbose'] (line 57), so [values] is
    a list of strings. *)
Definition VAction_call (a : Namespace) (values : list string) : Namespace :=
  let values' := (py_count "v" values + 1)%Z in
  set_verbose a (Some (values' + curval a)%Z).

(** ** The paths through [CommandLine] *)

(** The commas of a string. *)
Fixpoint count_commas (s : string) : nat :=
  match s with
  | EmptyString => O
  | String c rest =>
      if Ascii.eqb c ","%char then S (count_commas rest) else count_commas rest
  end.

(** The argument of a plot call (lines 91-95 and their four siblings). *)
Definition plot_call_of (a : Namespace) (phiset : PhaseSequence)
    (pcoefs : option (list pyfloat)) (m : string) : plot_call :=
  {| pc_phiset := phiset;
     pc_pcoefs := pcoefs;
     pc_model := m;
     pc_align_first_point_phase := align_first_point_phase a;
     pc_plot_magnitude := plot_magnitude a;
     pc_plot_positive_only := plot_positive_only a;
     pc_npts := plot_npts a;
     pc_show := negb (hide_plot a) |}.

(** The value line 150 or the end of the body hands back once a phase
    sequence is there. *)
Definition returned (a : Namespace) (phiset : PhaseSequence) : py_result :=
  Value (if return_angles a then Some phiset else None).

Definition is_plot (ev : event) : bool :=
  match ev with EPlot _ => true | _ => false end.

Definition is_solve (ev : event) : bool :=
  match ev with ESolve _ => true | _ => false end.

(** How a command ends once its phase sequence is there: the optional
    plot, then lines 149-150. *)
Inductive completes (E : Env) (a : Namespace) (phiset : PhaseSequence)
    (pcoefs : option (list pyfloat)) (m : string) : list event -> py_result -> Prop :=
| completes_without_plot (r : py_result) :
    plot a = false ->
    r = returned a phiset ->
    completes E a phiset pcoefs m [] r
| completes_with_plot (r : py_result) :
    plot a = true ->
    PlotQSPResponse E (plot_call_of a phiset pcoefs m) = inl tt ->
    r = returned a phiset ->
    completes E a phiset pcoefs m [EPlot (plot_call_of a phiset pcoefs m)] r
| completes_plot_raises (e : exn) :
    plot a = true ->
    PlotQSPResponse E (plot_call_of a phiset pcoefs m) = inr e ->
    completes E a phiset pcoefs m [EPlot (plot_call_of a phiset pcoefs m)] (Exception e).

(** Lines 82-87: the coefficients [poly2angles] works with, when
    [args.poly] is not empty. *)
Definition given_coefs (E : Env) (a : Namespace) : result (list pyfloat) :=
  match poly a with
  | PolyStr s => float_list E s
  | PolyList l => inl l
  | PolyNone => inl []
  end.

(** Every way a call of [CommandLine] can go, with its trace and result. *)
Inductive runs (E : Env) (a : Namespace) : list event -> py_result -> Prop :=
| run_poly2angles_exit :
    cmd a = "poly2angles" -> truthy_poly (poly a) = false ->
    runs E a
      [EPrint "[pyqsp.main] must specify polynomial coeffients using --poly, e.g. --poly -1,0,2"]
      (SystemExit 0)
| run_poly2angles_bad_float (e : exn) :
    cmd a = "poly2angles" -> truthy_poly (poly a) = true ->
    given_coefs E a = inr e ->
    runs E a [] (Exception e)
| run_poly2angles_solver_raises (coefs : list pyfloat) (e : exn) :
    cmd a = "poly2angles" -> truthy_poly (poly a) = true ->
    given_coefs E a = inl coefs ->
    QuantumSignalProcessingPhases E
      {| sc_poly := coefs; sc_model := Some (model a); sc_max_nretries := None |} = inr e ->
    runs E a
      [EPrint ("[pyqsp] polynomial coefficients=" ++ str_of_floats E coefs)%string;
       ESolve {| sc_poly := coefs; sc_model := Some (model a); sc_max_nretries := None |}]
      (Exception e)
| run_poly2angles (coefs : list pyfloat) (phiset : PhaseSequence) t r :
    cmd a = "poly2angles" -> truthy_poly (poly a) = true ->
    given_coefs E a = inl coefs ->
    QuantumSignalProcessingPhases E
      {| sc_poly := coefs; sc_model := Some (model a); sc_max_nretries := None |} = inl phiset ->
    completes E a phiset (Some coefs) (model a) t r ->
    runs E a
      (EPrint ("[pyqsp] polynomial coefficients=" ++ str_of_floats E coefs)%string
       :: ESolve {| sc_poly := coefs; sc_model := Some (model a); sc_max_nretries := None |}
       :: t) r
| run_hamsim_raises (e : exn) :
    cmd a = "hamsim" ->
    ham_sim E (tau a) 0x1.a36e2eb1c432dp-14%float (1 - 0x1.a36e2eb1c432dp-14)%float = inr e ->
    runs E a
      [EHamSim (tau a) 0x1.a36e2eb1c432dp-14%float (1 - 0x1.a36e2eb1c432dp-14)%float]
      (Exception e)
| run_hamsim (phiset : PhaseSequence) (telapsed : pyfloat) t r :
    cmd a = "hamsim" ->
    ham_sim E (tau a) 0x1.a36e2eb1c432dp-14%float (1 - 0x1.a36e2eb1c432dp-14)%float
    = inl (phiset, telapsed) ->
    completes E a phiset None "Wz" t r ->
    runs E a
      (EHamSim (tau a) 0x1.a36e2eb1c432dp-14%float (1 - 0x1.a36e2eb1c432dp-14)%float :: t) r
| run_invert_builder_raises (e : exn) :
    cmd a = "invert" ->
    PolyOneOverX E (kappa a) (epsilon a) true true = inr e ->
    runs E a [EPolyOneOverX (kappa a) (epsilon a) true true] (Exception e)
| run_invert_solver_raises (pcoefs : list pyfloat) (e : exn) :
    cmd a = "invert" ->
    PolyOneOverX E (kappa a) (epsilon a) true true = inl pcoefs ->
    QuantumSignalProcessingPhases E
      {| sc_poly := pcoefs; sc_model := None; sc_max_nretries := Some (niter a) |} = inr e ->
    runs E a
      [EPolyOneOverX (kappa a) (epsilon a) true true;
       ESolve {| sc_poly := pcoefs; sc_model := None; sc_max_nretries := Some (niter a) |}]
      (Exception e)
| run_invert (pcoefs : list pyfloat) (phiset : PhaseSequence) t r :
    cmd a = "invert" ->
    PolyOneOverX E (kappa a) (epsilon a) true true = inl pcoefs ->
    QuantumSignalProcessingPhases E
      {| sc_poly := pcoefs; sc_model := None; sc_max_nretries := Some (niter a) |} = inl phiset ->
    completes E a phiset (Some pcoefs) "Wx" t r ->
    runs E a
      (EPolyOneOverX (kappa a) (epsilon a) true true
       :: ESolve {| sc_poly := pcoefs; sc_model := None; sc_max_nretries := Some (niter a) |}
       :: t) r
| run_poly_erf_builder_raises (e : exn) :
    cmd a = "poly_erf" ->
    PolyErf E (degree a) (kappa a) = inr e ->
    runs E a [EPolyErf (degree a) (kappa a)] (Exception e)
| run_poly_erf_solver_raises (pcoefs : list pyfloat) (e : exn) :
    cmd a = "poly_erf" ->
    PolyErf E (degree a) (kappa a) = inl pcoefs ->
    QuantumSignalProcessingPhases E
      {| sc_poly := pcoefs; sc_model := None; sc_max_nretries := Some (niter a) |} = inr e ->
    runs E a
      [EPolyErf (degree a) (kappa a);
       EPrint ("[pyqsp] polynomial coefs = " ++ str_of_floats E pcoefs)%string;
       ESolve {| sc_poly := pcoefs; sc_model := None; sc_max_nretries := Some (niter a) |}]
      (Exception e)
| run_poly_erf (pcoefs : list pyfloat) (phiset : PhaseSequence) t r :
    cmd a = "poly_erf" ->
    PolyErf E (degree a) (kappa a) = inl pcoefs ->
    QuantumSignalProcessingPhases E
      {| sc_poly := pcoefs; sc_model := None; sc_max_nretries := Some (niter a) |} = inl phiset ->
    completes E a phiset (Some pcoefs) "Wx" t r ->
    runs E a
      (EPolyErf (degree a) (kappa a)
       :: EPrint ("[pyqsp] polynomial coefs = " ++ str_of_floats E pcoefs)%string
       :: ESolve {| sc_poly := pcoefs; sc_model := None; sc_max_nretries := Some (niter a) |}
       :: t) r
| run_angles_unknown :
    cmd a = "angles" -> seqname_unknown E a = true ->
    runs E a
      [EPrint ("Known phase generators: " ++
               String.concat "," (dict_keys (phase_generators E)))%string]
      (Value None)
| run_angles_help (n : string) (pg : PhaseGenerator) :
    cmd a = "angles" -> seqname_unknown E a = false ->
    seqname a = Some n -> dict_get (phase_generators E) n = Some pg ->
    truthy_list (seqargs a) = false ->
    runs E a [EPrint (help pg)] (Value None)
| run_angles_generator_raises (n : string) (pg : PhaseGenerator) (xs : list pyfloat) (e : exn) :
    cmd a = "angles" -> seqname_unknown E a = false ->
    seqname a = Some n -> dict_get (phase_generators E) n = Some pg ->
    seqargs a = Some xs -> xs <> [] ->
    generate pg xs = inr e ->
    runs E a [EGenerate n xs] (Exception e)
| run_angles (n : string) (pg : PhaseGenerator) (xs : list pyfloat)
    (phiset : PhaseSequence) t r :
    cmd a = "angles" -> seqname_unknown E a = false ->
    seqname a = Some n -> dict_get (phase_generators E) n = Some pg ->
    seqargs a = Some xs -> xs <> [] ->
    generate pg xs = inl phiset ->
    completes E a phiset None "Wx" t r ->
    runs E a
      (EGenerate n xs
       :: EPrint ("[pysqp] phiset=" ++ str_of_floats E phiset)%string
       :: t) r
| run_unknown_command :
    ~ In (cmd a) known_commands ->
    runs E a [] (Exception (NameError "cmd")).

(** What an event of a call owes to the arguments of that call: the
    command that makes such a call, and the arguments it hands over. *)
Definition call_from_args (E : Env) (a : Namespace) (ev : event) : Prop :=
  match ev with
  | EPrint _ => True
  | ESolve c =>
      (cmd a = "poly2angles" /\ given_coefs E a = inl (sc_poly c))
      \/ cmd a = "invert" \/ cmd a = "poly_erf"
  | EPlot c =>
      plot a = true /\
      c = plot_call_of a (pc_phiset c) (pc_pcoefs c) (pc_model c)
  | EHamSim t eps suc =>
      cmd a = "hamsim" /\ t = tau a /\
      eps = 0x1.a36e2eb1c432dp-14%float /\ suc = 0x1.fff2e48e8a71ep-1%float
  | EPolyOneOverX k eps return_coef ensure_bounded =>
      cmd a = "invert" /\ k = kappa a /\ eps = epsilon a /\
      return_coef = true /\ ensure_bounded = true
  | EPolyErf d k => cmd a = "poly_erf" /\ d = degree a /\ k = kappa a
  | EGenerate n xs =>
      cmd a = "angles" /\ seqname a = Some n /\ seqargs a = Some xs /\
      xs <> [] /\ dict_mem (phase_generators E) n = true
  end.

(** The exception, if any, with which the environment answers the call
    that an event records. *)
Definition error_of {A : Type} (r : result A) : option exn :=
  match r with
  | inl _ => None
  | inr e => Some e
  end.

Definition raises (E : Env) (ev : event) : option exn :=
  match ev with
  | EPrint _ => None
  | ESolve c => error_of (QuantumSignalProcessingPhases E c)
  | EPlot c => error_of (PlotQSPResponse E c)
  | EHamSim t eps suc => error_of (ham_sim E t eps suc)
  | EPolyOneOverX k eps return_coef ensure_bounded =>
      error_of (PolyOneOverX E k eps return_coef ensure_bounded)
  | EPolyErf d k => error_of (PolyErf E d k)
  | EGenerate n xs =>
      match dict_get (phase_generators E) n with
      | Some pg => error_of (generate pg xs)
      | None => None
      end
  end.

(** The lines a run printed, in order. *)
Fixpoint printed (t : list event) : list string :=
  match t with
  | [] => []
  | EPrint text :: rest => text :: printed rest
  | _ :: rest => printed rest
  end.

(** ** [CommandLine] from its first line *)

(** What lines 24-26 and 76-77 take from outside main.py. *)
Record Host : Type := {
  (** lines 24-26: [pkg_resources.require("pyqsp")[0].version], or the
      exception of the import or of the lookup *)
  pkg_version : result string;
  (** line 77: [parser.parse_args(arglist)]: the namespace, or the status
      with which argparse leaves the process (after a usage error, or
      after printing its help) *)
  parse_args : option (list string) -> Namespace + Z
}.

(** The environment with the version that line 26 found. *)
Definition set_version (E : Env) (v : string) : Env := {|
  version := v;
  str_of_floats := str_of_floats E;
  str_of_global := str_of_global E;
  py_float := py_float E;
  QuantumSignalProcessingPhases := QuantumSignalProcessingPhases E;
  PlotQSPResponse := PlotQSPResponse E;
  ham_sim := ham_sim E;
  PolyOneOverX := PolyOneOverX E;
  PolyErf := PolyErf E;
  phase_generators := phase_generators E
|}.

(** Lines 76-77: the namespace the body works with: the one handed in (a
    namespace object is true), else the one argparse makes of [arglist];
    none when argparse leaves the process. *)
Definition namespace_of (H : Host) (args : option Namespace)
    (arglist : option (list string)) : option Namespace :=
  match args with
  | Some a => Some a
  | None =>
      match parse_args H arglist with
      | inl a => Some a
      | inr _ => None
      end
  end.

(** Lines 20-150: [CommandLine(args=None, arglist=None)]. *)
Definition CommandLine_entry (H : Host) (E : Env) (args : option Namespace)
    (arglist : option (list string)) : list event * py_result :=
  match pkg_version H with
  | inr e => ([], Exception e)
  | inl v =>
      match args with
      | Some a => CommandLine (set_version E v) a
      | None =>
          match parse_args H arglist with
          | inl a => CommandLine (set_version E v) a
          | inr status => ([], SystemExit status)
          end
      end
  end.

(** ** Control-flow lemmas *)

Lemma trace_bind {A B : Type} (m : run A) (k : A -> run B) :
  fst (bind m k) =
  fst m ++ match snd m with Normal x => fst (k x) | _ => [] end.
Proof.
  destruct m as [t [x | v | s | e]]; simpl;
    try (now rewrite app_nil_r).
  destruct (k x); reflexivity.
Qed.

Lemma outcome_bind {A B : Type} (m : run A) (k : A -> run B) :
  snd (bind m k) =
  match snd m with
  | Normal x => snd (k x)
  | Returned v => Returned v
  | Exited s => Exited s
  | Raised e => Raised e
  end.
Proof.
  destruct m as [t [x | v | s | e]]; simpl; try reflexivity.
  destruct (k x); reflexivity.
Qed.

Lemma Forall_bind {A B : Type} (P : event -> Prop) (m : run A) (k : A -> run B) :
  Forall P (fst m) ->
  (forall x, snd m = Normal x -> Forall P (fst (k x))) ->
  Forall P (fst (bind m k)).
Proof.
  intros Hm Hk. rewrite trace_bind. apply Forall_app. split; [exact Hm |].
  destruct (snd m) eqn:Hs; auto.
Qed.

Lemma trace_finish (m : run unit) : fst (finish m) = fst m.
Proof. destruct m as [t [x | v | s | e]]; reflexivity. Qed.

Lemma result_finish (m : run unit) :
  snd (finish m) =
  match snd m with
  | Normal _ => Value None
  | Returned v => Value v
  | Exited s => SystemExit s
  | Raised e => Exception e
  end.
Proof. destruct m as [t [x | v | s | e]]; reflexivity. Qed.

Lemma Forall_call {A : Type} (P : event -> Prop) (ev : event) (r : result A) :
  P ev -> Forall P (fst (call ev r)).
Proof. intros H. destruct r; simpl; auto. Qed.

Lemma Forall_lift {A : Type} (P : event -> Prop) (r : result A) :
  Forall P (fst (lift r)).
Proof. destruct r; simpl; auto. Qed.

Lemma Forall_return_phiset (P : event -> Prop) (a : Namespace) (v : option PhaseSequence) :
  Forall P (fst (return_phiset a v)).
Proof. destruct v; simpl; [destruct (return_angles a) |]; simpl; auto. Qed.

(** The plot call carries the [model] of its call site. *)
Lemma Forall_plot_response (E : Env) (P : event -> Prop) (a : Namespace)
    (phiset : PhaseSequence) (pcoefs : option (list pyfloat)) (m : string) :
  (forall c, pc_model c = m -> P (EPlot c)) ->
  Forall P (fst (plot_response E a phiset pcoefs m)).
Proof.
  intros H. unfold plot_response. destruct (plot a); simpl; auto.
  apply Forall_call. apply H. reflexivity.
Qed.

Lemma Forall_call_solver (E : Env) (P : event -> Prop) (c : solver_call) :
  P (ESolve c) -> Forall P (fst (call_solver E c)).
Proof. intros H. unfold call_solver. apply Forall_call. exact H. Qed.

Lemma bare_bind {A B : Type} (m : run A) (k : A -> run B) :
  bare m -> (forall x, bare (k x)) -> bare (bind m k).
Proof.
  unfold bare. intros Hm Hk v. rewrite outcome_bind.
  destruct (snd m) eqn:Hs; try congruence.
  - apply Hk.
  - intros H. apply Hm. congruence.
Qed.

Lemma bare_call {A : Type} (ev : event) (r : result A) : bare (call ev r).
Proof. unfold bare. destruct r; simpl; congruence. Qed.

Lemma bare_lift {A : Type} (r : result A) : bare (lift r).
Proof. unfold bare. destruct r; simpl; congruence. Qed.

Lemma bare_plot_response (E : Env) (a : Namespace) (phiset : PhaseSequence)
    (pcoefs : option (list pyfloat)) (m : string) :
  bare (plot_response E a phiset pcoefs m).
Proof.
  unfold plot_response. destruct (plot a); [apply bare_call |].
  unfold bare; simpl; congruence.
Qed.

Create HintDb bare.
#[local] Hint Resolve bare_call bare_lift bare_plot_response : bare.

Ltac bare_steps :=
  repeat first
    [ apply bare_bind; [| intros ? ]
    | solve [ auto with bare ]
    | solve [ unfold bare; simpl; congruence ]
    | match goal with
      | |- bare (if ?b then _ else _) => destruct b
      | |- bare (match ?x with _ => _ end) => destruct x
      end ].

(** No command of the dispatch executes [return] with a value: the two
    [return] statements of the [angles] command are bare. *)
Lemma dispatch_returns_bare (E : Env) (a : Namespace) : bare (dispatch E a).
Proof.
  unfold dispatch, cmd_poly2angles, cmd_hamsim, cmd_invert, cmd_poly_erf,
    cmd_angles, cmd_unknown, call_solver, load_global.
  bare_steps.
Qed.

Lemma append_assoc (s1 s2 s3 : string) : ((s1 ++ s2) ++ s3 = s1 ++ (s2 ++ s3))%string.
Proof. induction s1 as [| c s1 IH]; simpl; [reflexivity | now rewrite IH]. Qed.

(** The usage text lists [poly_sign] among the commands (line 35). *)
Lemma help_text_lists_poly_sign (E : Env) :
  exists before after : string,
    help_text E = (before ++ "    poly_sign   - compute QSP phase angles" ++ after)%string.
Proof.
  unfold help_text.
  match goal with
  | |- exists before after, (?pre ++ ?v ++ ?post)%string = _ =>
      let i := eval vm_compute in
        (match String.index 0 "    poly_sign   - compute QSP phase angles" post with
         | Some i => i | None => O end) in
      exists (pre ++ v ++ String.substring 0 i post)%string;
      exists (String.substring (i + 42) (String.length post) post)
  end.
  rewrite !append_assoc. reflexivity.
Qed.

(** ** The model tag (C2) *)

Ltac trace_steps :=
  repeat first
    [ apply Forall_bind; [| intros ? ? ]
    | apply Forall_call_solver
    | apply Forall_plot_response; intros ? ?
    | apply Forall_call
    | apply Forall_lift
    | apply Forall_return_phiset
    | apply Forall_nil
    | apply Forall_cons
    | match goal with
      | |- Forall _ (fst (if ?b then _ else _)) => destruct b
      | |- Forall _ (fst (match ?x with _ => _ end)) => destruct x
      end ].

(** [poly2angles] with a list of coefficients: the solver is called
    with [args.model], and so is the plot when there is one. *)
Lemma poly2angles_passes_model (E : Env) (a : Namespace) (coefs : list pyfloat) :
  cmd a = "poly2angles" -> poly a = PolyList coefs -> coefs <> [] ->
  let c := {| sc_poly := coefs; sc_model := Some (model a);
              sc_max_nretries := None |} in
  In (ESolve c) (trace_of (CommandLine E a)) /\
  forall phiset,
    QuantumSignalProcessingPhases E c = inl phiset -> plot a = true ->
    exists p, In (EPlot p) (trace_of (CommandLine E a)) /\
              pc_phiset p = phiset /\ pc_pcoefs p = Some coefs /\
              pc_model p = model a.
Proof.
  intros Hcmd Hpoly Hne c. subst c.
  assert (Hdispatch :
    In (ESolve {| sc_poly := coefs; sc_model := Some (model a);
                  sc_max_nretries := None |}) (fst (dispatch E a)) /\
    forall phiset,
      QuantumSignalProcessingPhases E
        {| sc_poly := coefs; sc_model := Some (model a);
           sc_max_nretries := None |} = inl phiset ->
      plot a = true ->
      exists p, In (EPlot p) (fst (dispatch E a)) /\
                pc_phiset p = phiset /\ pc_pcoefs p = Some coefs /\
                pc_model p = model a).
  { unfold dispatch. rewrite Hcmd. simpl (_ =? _). cbv iota.
    unfold cmd_poly2angles, call_solver, plot_response. rewrite Hpoly.
    destruct coefs as [| x coefs]; [contradiction |].
    simpl.
    destruct (QuantumSignalProcessingPhases E _) as [phiset | e] eqn:Hsolve; simpl.
    - destruct (plot a) eqn:Hplot; simpl.
      + match goal with
        | |- context [PlotQSPResponse E ?p] => destruct (PlotQSPResponse E p)
        end; simpl;
          (split; [right; left; reflexivity |]); intros phiset' Heq _;
          injection Heq as <-; eexists;
          (split; [right; right; left; reflexivity |]); simpl; auto.
      + split; [right; left; reflexivity |]. intros ? _ H. discriminate H.
    - split; [right; left; reflexivity |]. intros ? H. discriminate H. }
  unfold trace_of, CommandLine. rewrite trace_finish, trace_bind.
  destruct Hdispatch as [Hsolve Hplot]. split.
  - apply in_or_app. left. exact Hsolve.
  - intros phiset Hq Hp. destruct (Hplot phiset Hq Hp) as (p & Hin & Hrest).
    exists p. split; [apply in_or_app; left; exact Hin | exact Hrest].
Qed.

(** C2, as the code has it: in every call, each solver call and each
    plot call carries the tag that its command fixes: [args.model] for
    [poly2angles]; for the other commands the solver's [model] keyword is
    left out and the plot is given the literal "Wz" ([hamsim]) or "Wx"
    ([invert], [poly_erf], [angles]).  For [poly2angles] with a list of
    coefficients the solver call is there, and so is the plot call once
    the solver has answered and [--plot] is set. *)
Theorem model_tag_per_command (E : Env) (a : Namespace) :
  Forall (carries_model_of_command a) (trace_of (CommandLine E a))
  /\ forall coefs,
       cmd a = "poly2angles" -> poly a = PolyList coefs -> coefs <> [] ->
       let c := {| sc_poly := coefs; sc_model := Some (model a);
                   sc_max_nretries := None |} in
       In (ESolve c) (trace_of (CommandLine E a)) /\
       forall phiset,
         QuantumSignalProcessingPhases E c = inl phiset -> plot a = true ->
         exists p, In (EPlot p) (trace_of (CommandLine E a)) /\
                   pc_phiset p = phiset /\ pc_pcoefs p = Some coefs /\
                   pc_model p = model a.
Proof.
  split; [| apply poly2angles_passes_model].
  unfold trace_of, CommandLine. rewrite trace_finish.
  apply Forall_bind; [| intros; apply Forall_return_phiset].
  unfold dispatch.
  destruct (cmd a =? "poly2angles") eqn:H1.
  { unfold cmd_poly2angles. trace_steps;
      simpl; try rewrite H1; simpl; auto. }
  destruct (cmd a =? "hamsim") eqn:H2.
  { unfold cmd_hamsim. trace_steps; simpl; try rewrite H1, H2; simpl; auto. }
  destruct (cmd a =? "invert") eqn:H3.
  { unfold cmd_invert. trace_steps; simpl; try rewrite H1, ?H2; simpl; auto. }
  destruct (cmd a =? "poly_erf") eqn:H4.
  { unfold cmd_poly_erf. trace_steps; simpl; try rewrite H1, ?H2; simpl; auto. }
  destruct (cmd a =? "angles") eqn:H5.
  { unfold cmd_angles. trace_steps; simpl; try rewrite H1, ?H2; simpl; auto. }
  unfold cmd_unknown, load_global. trace_steps; simpl; auto.
Qed.

(** C2 fails as stated: [pyqsp --model=Wz --plot invert] calls the solver
    without a [model] keyword and plots with "Wx", not with the selected
    "Wz". *)
Lemma model_tag_not_passed_by_invert :
  ~ Forall (carries_model args_invert_Wz) (trace_of (CommandLine test_env args_invert_Wz)).
Proof.
  intros H. vm_compute in H.
  inversion H as [| ev1 t1 _ H1]; subst.
  inversion H1 as [| ev2 t2 Hsolve _]; subst.
  discriminate Hsolve.
Qed.

(** ** The retry budget (C3) *)

(** C3 at [pyqsp --poly=-1,0,2 --niter=n poly2angles]: whatever [n] is,
    the one solver call of [poly2angles] has no [max_nretries] keyword,
    so [carries_niter] fails there; [invert] and [poly_erf] do pass
    [args.niter]. *)
Theorem poly2angles_drops_niter (E : Env) (n : Z) :
  (exists text rest,
     trace_of (CommandLine E (args_poly2angles n)) =
     EPrint text
     :: ESolve {| sc_poly := [(-1)%float; 0%float; 2%float];
                  sc_model := Some "Wx";
                  sc_max_nretries := None |}
     :: rest)
  /\ ~ Forall (carries_niter (args_poly2angles n))
              (trace_of (CommandLine E (args_poly2angles n)))
  /\ (forall a, (cmd a =? "invert") || (cmd a =? "poly_erf") = true ->
                Forall (carries_niter a) (trace_of (CommandLine E a))).
Proof.
  assert (Htrace : exists text rest,
     trace_of (CommandLine E (args_poly2angles n)) =
     EPrint text
     :: ESolve {| sc_poly := [(-1)%float; 0%float; 2%float];
                  sc_model := Some "Wx";
                  sc_max_nretries := None |}
     :: rest).
  { unfold trace_of, CommandLine, dispatch. simpl (cmd _ =? _). cbv iota.
    unfold cmd_poly2angles, call_solver, plot_response. simpl.
    destruct (QuantumSignalProcessingPhases E _); simpl;
      eexists; eexists; reflexivity. }
  split; [exact Htrace |]. split.
  - destruct Htrace as (text & rest & ->). intros H.
    inversion H as [| ev1 t1 _ H1]; subst.
    inversion H1 as [| ev2 t2 Hsolve _]; subst.
    discriminate Hsolve.
  - intros a Hcmd. unfold trace_of, CommandLine. rewrite trace_finish.
    apply Forall_bind; [| intros; apply Forall_return_phiset].
    unfold dispatch.
    destruct (cmd a =? "poly2angles") eqn:H1.
    { apply String.eqb_eq in H1. rewrite H1 in Hcmd. discriminate Hcmd. }
    destruct (cmd a =? "hamsim") eqn:H2.
    { apply String.eqb_eq in H2. rewrite H2 in Hcmd. discriminate Hcmd. }
    destruct (cmd a =? "invert") eqn:H3.
    { unfold cmd_invert. trace_steps; simpl; auto. }
    destruct (cmd a =? "poly_erf") eqn:H4.
    { unfold cmd_poly_erf. trace_steps; simpl; auto. }
    discriminate Hcmd.
Qed.

(** ** The [angles] command without a usable request (C4) *)

(** C4: for the [angles] command, when the sequence name is missing or
    not in the registry, or when no sequence arguments are given,
    [CommandLine] prints one line (the known generators, or the help of
    the named generator) and returns [None]: no generator runs, nothing
    is plotted, nothing is raised and the process is not left. *)
Theorem angles_reports_and_returns (E : Env) (a : Namespace) :
  cmd a = "angles" ->
  seqname_unknown E a = true \/ truthy_list (seqargs a) = false ->
  exists text,
    CommandLine E a = ([EPrint text], Value None) /\
    (text = ("Known phase generators: " ++
             String.concat "," (dict_keys (phase_generators E)))%string
     \/ exists n pg, seqname a = Some n /\
                     dict_get (phase_generators E) n = Some pg /\
                     text = help pg).
Proof.
  intros Hcmd Hreq. unfold CommandLine, dispatch. rewrite Hcmd. simpl (_ =? _).
  cbv iota. unfold cmd_angles.
  destruct (seqname_unknown E a) eqn:Hunknown.
  - eexists. split; [reflexivity | left; reflexivity].
  - destruct Hreq as [Hreq | Hargs]; [discriminate Hreq |].
    unfold seqname_unknown, dict_mem in Hunknown.
    destruct (seqname a) as [n |] eqn:Hname.
    2:{ simpl in Hunknown. discriminate Hunknown. }
    destruct (dict_get (phase_generators E) n) as [pg |] eqn:Hget.
    2:{ rewrite orb_true_r in Hunknown. discriminate Hunknown. }
    rewrite Hargs. simpl.
    eexists. split; [reflexivity |]. right. exists n, pg. auto.
Qed.

(** The hypotheses of C4 hold for [pyqsp --seqname erf_step angles]. *)
Lemma angles_reports_and_returns_witness :
  cmd (args_angles (Some "erf_step") None) = "angles" /\
  truthy_list (seqargs (args_angles (Some "erf_step") None)) = false /\
  exists text,
    CommandLine test_env (args_angles (Some "erf_step") None)
    = ([EPrint text], Value None) /\
    (text = ("Known phase generators: " ++
             String.concat "," (dict_keys (phase_generators test_env)))%string
     \/ exists n pg, seqname (args_angles (Some "erf_step") None) = Some n /\
                     dict_get (phase_generators test_env) n = Some pg /\
                     text = help pg).
Proof.
  split; [reflexivity |]. split; [reflexivity |].
  apply (angles_reports_and_returns test_env (args_angles (Some "erf_step") None)).
  - reflexivity.
  - right. reflexivity.
Defined.

(** ** The fallback branch (C8) *)

(** The name [cmd] is bound nowhere that line 146 can see. *)
Lemma cmd_is_unbound :
  bound_in CommandLine_locals "cmd" = false /\
  bound_in module_globals "cmd" = false /\
  bound_in python_builtins "cmd" = false.
Proof. repeat split; reflexivity. Qed.

(** C8: for every command that is not one of the five of the dispatch,
    [CommandLine] raises [NameError] for the name [cmd] before it prints
    anything, so the usage text is never printed; [poly_sign], which the
    usage text lists, is such a command. *)
Theorem unknown_command_raises_NameError (E : Env) (a : Namespace) :
  ~ In (cmd a) known_commands ->
  CommandLine E a = ([], Exception (NameError "cmd")) /\
  ~ In (EPrint (help_text E)) (trace_of (CommandLine E a)) /\
  ~ In "poly_sign" known_commands /\
  exists before after : string,
    help_text E = (before ++ "    poly_sign   - compute QSP phase angles" ++ after)%string.
Proof.
  intros Hcmd.
  assert (Hrun : CommandLine E a = ([], Exception (NameError "cmd"))).
  { unfold CommandLine, dispatch.
    repeat match goal with
           | |- context [cmd a =? ?s] =>
               destruct (String.eqb_spec (cmd a) s) as [Heq | _];
               [exfalso; apply Hcmd; rewrite Heq; simpl; tauto |]
           end.
    reflexivity. }
  split; [exact Hrun |]. split; [rewrite Hrun; simpl; tauto |].
  split.
  - simpl. intros H. repeat destruct H as [H | H]; try discriminate H; exact H.
  - apply help_text_lists_poly_sign.
Qed.

(** The hypothesis of C8 holds for [pyqsp poly_sign]. *)
Lemma unknown_command_raises_NameError_witness :
  ~ In (cmd (default_args "poly_sign")) known_commands /\
  CommandLine test_env (default_args "poly_sign") = ([], Exception (NameError "cmd")).
Proof.
  assert (H : ~ In (cmd (default_args "poly_sign")) known_commands).
  { simpl. intros H. repeat destruct H as [H | H]; try discriminate H; exact H. }
  split; [exact H |].
  exact (proj1 (unknown_command_raises_NameError test_env (default_args "poly_sign") H)).
Defined.

(** ** [poly2angles] without coefficients (C9) *)

(** C9: for [poly2angles] with no coefficients ([args.poly] absent or
    empty), [CommandLine] prints one message and leaves through
    [sys.exit(0)]: the caller gets no value, the exit status is 0. *)
Theorem poly2angles_without_poly_exits (E : Env) (a : Namespace) :
  cmd a = "poly2angles" ->
  truthy_poly (poly a) = false ->
  CommandLine E a =
  ([EPrint "[pyqsp.main] must specify polynomial coeffients using --poly, e.g. --poly -1,0,2"],
   SystemExit 0).
Proof.
  intros Hcmd Hpoly. unfold CommandLine, dispatch. rewrite Hcmd. simpl (_ =? _).
  cbv iota. unfold cmd_poly2angles. rewrite Hpoly. reflexivity.
Qed.

(** The hypotheses of C9 hold for [pyqsp poly2angles]. *)
Lemma poly2angles_without_poly_exits_witness :
  cmd (default_args "poly2angles") = "poly2angles" /\
  truthy_poly (poly (default_args "poly2angles")) = false /\
  CommandLine test_env (default_args "poly2angles") =
  ([EPrint "[pyqsp.main] must specify polynomial coeffients using --poly, e.g. --poly -1,0,2"],
   SystemExit 0).
Proof.
  split; [reflexivity |]. split; [reflexivity |].
  apply (poly2angles_without_poly_exits test_env (default_args "poly2angles"));
    reflexivity.
Defined.

(** ** What the caller gets back (C10) *)

(** C10 fails as stated: [pyqsp poly2angles] (no [--poly], no
    [--return-angles]) is one of the "other cases", and [CommandLine]
    does not return [None] there: it leaves through [sys.exit(0)]. *)
Lemma return_None_fails_on_exit :
  return_angles (default_args "poly2angles") = false /\
  result_of (CommandLine test_env (default_args "poly2angles")) = SystemExit 0 /\
  result_of (CommandLine test_env (default_args "poly2angles"))
  <> claimed_return test_env (default_args "poly2angles").
Proof.
  split; [reflexivity |]. split; [reflexivity |].
  vm_compute. discriminate.
Qed.

(** C10, as the code has it.  A phase sequence "was produced" when the
    dispatch falls through to line 149 with [phiset] not [None].
    [CommandLine] returns the sequence exactly when that is so and
    [--return-angles] is set; whenever it returns otherwise, it returns
    [None] (a solve without the flag, a bare [return] of [angles]); and it
    does not return when the dispatch ends in [sys.exit] or raises. *)
Theorem return_angles_contract (E : Env) (a : Namespace) :
  (forall p, result_of (CommandLine E a) = Value (Some p) <->
             return_angles a = true /\ snd (dispatch E a) = Normal (Some p))
  /\ match snd (dispatch E a) with
     | Normal (Some p) =>
         result_of (CommandLine E a) =
         if return_angles a then Value (Some p) else Value None
     | Normal None => result_of (CommandLine E a) = Value None
     | Returned _ => result_of (CommandLine E a) = Value None
     | Exited s => result_of (CommandLine E a) = SystemExit s
     | Raised e => result_of (CommandLine E a) = Exception e
     end.
Proof.
  pose proof (dispatch_returns_bare E a) as Hbare. unfold bare in Hbare.
  unfold result_of, CommandLine. rewrite result_finish, outcome_bind.
  destruct (snd (dispatch E a)) as [[p |] | v | s | e] eqn:Hd; simpl.
  - destruct (return_angles a); simpl; split; try reflexivity;
      intros q; split; intros H; try discriminate H.
    + injection H as <-. auto.
    + destruct H as [_ H]. injection H as <-. reflexivity.
    + destruct H as [H _]. discriminate H.
  - split; [| reflexivity].
    intros q; split; intros H; [discriminate H |].
    destruct H as [_ H]. discriminate H.
  - rewrite (Hbare v eq_refl). split; [| reflexivity].
    intros q; split; intros H; [discriminate H |].
    destruct H as [_ H]. discriminate H.
  - split; [| reflexivity].
    intros q; split; intros H; [discriminate H |].
    destruct H as [_ H]. discriminate H.
  - split; [| reflexivity].
    intros q; split; intros H; [discriminate H |].
    destruct H as [_ H]. discriminate H.
Qed.

(** ** Named generators and their arity (C7) *)

(** C7: a generator that validates its arity (section 4.4) answers a call
    with any other number of arguments with [ArgumentError] and builds no
    sequence; and [CommandLine], reaching line 135 with such arguments,
    ends in that exception right after the call: no sequence is printed,
    plotted or returned. *)
Theorem wrong_arity_raises_ArgumentError
    (g : NamedSequenceGenerator.Construction) (args : list pyfloat) :
  length args <> NamedSequenceGenerator.arity g ->
  generate (NamedSequenceGenerator.generator g) args = inr ArgumentError /\
  forall (E : Env) (a : Namespace) (n : string),
    cmd a = "angles" ->
    seqname a = Some n ->
    n <> "" ->
    dict_get (phase_generators E) n = Some (NamedSequenceGenerator.generator g) ->
    seqargs a = Some args ->
    args <> [] ->
    CommandLine E a = ([EGenerate n args], Exception ArgumentError).
Proof.
  intros Hlen.
  assert (Hgen : generate (NamedSequenceGenerator.generator g) args = inr ArgumentError).
  { simpl. unfold NamedSequenceGenerator.generate_checked.
    destruct (Nat.eqb_spec (length args) (NamedSequenceGenerator.arity g));
      [contradiction | reflexivity]. }
  split; [exact Hgen |].
  intros E a n Hcmd Hname Hn Hget Hargs Hne.
  unfold CommandLine, dispatch. rewrite Hcmd. simpl (_ =? _). cbv iota.
  unfold cmd_angles, seqname_unknown, dict_mem. rewrite Hname, Hget, Hargs.
  destruct n as [| c n]; [contradiction |].
  destruct args as [| x args]; [contradiction |].
  simpl (truthy_str _). simpl (truthy_list _). simpl (negb _). simpl (_ || _).
  cbv iota. rewrite Hgen. reflexivity.
Qed.

(** The hypothesis of C7 holds for two arguments given to [erf_step]:
    [pyqsp --seqname erf_step --seqargs 1,2 angles]. *)
Lemma wrong_arity_raises_ArgumentError_witness :
  CommandLine test_env (args_angles (Some "erf_step") (Some [1%float; 2%float]))
  = ([EGenerate "erf_step" [1%float; 2%float]], Exception ArgumentError).
Proof.
  refine (proj2 (wrong_arity_raises_ArgumentError
                   {| NamedSequenceGenerator.description := "kappa";
                      NamedSequenceGenerator.arity := 1;
                      NamedSequenceGenerator.closed_form := fun xs => xs |}
                   [1%float; 2%float] _)
                test_env (args_angles (Some "erf_step") (Some [1%float; 2%float]))
                "erf_step" eq_refl eq_refl _ eq_refl eq_refl _);
    simpl; discriminate.
Defined.

(** ** The solver's contract (C6) *)

Module AngleSolverFacts.

Import AngleSolver.
Local Open Scope Q_scope.

Section Facts.

Variable K : Kernels.

(** A degree-down solve that runs to its end fixes one angle per stage,
    from stage [d] down to stage 0. *)
Lemma degree_down_length (m : ModelTag) (d : nat) :
  forall cs phis, degree_down K m d cs = Some phis -> length phis = S d.
Proof.
  induction d as [| d IH]; intros cs phis H; simpl in H;
    destruct (Qle_bool (- (1)) (stage_ratio K m cs) && Qle_bool (stage_ratio K m cs) 1);
    try discriminate H.
  - injection H as <-. reflexivity.
  - destruct (degree_down K m d _) as [rest |] eqn:Hrest; [| discriminate H].
    injection H as <-. simpl. f_equal. eapply IH. exact Hrest.
Qed.

(** What an accepted attempt has established about the sequence. *)
Lemma attempt_accepted (k : nat) (P : PolynomialModel) (m : ModelTag) (phi : PhaseSequence) :
  attempt K k P m = inl phi ->
  tag phi = m /\
  length (angles phi) = S (degree P).
Proof.
  unfold attempt. intros H.
  destruct (degree_down K m (degree P) _) as [phis |] eqn:Hdown; [| discriminate H].
  destruct (evaluate K _ false (dense_samples K)) as [curve |] eqn:Heval;
    [| discriminate H].
  destruct (within_tolerance K (residual_of P curve)) eqn:Hle;
    [| discriminate H].
  injection H as <-. simpl. split; [reflexivity |].
  eapply degree_down_length. exact Hdown.
Qed.

(** A sequence that the retry loop hands out was accepted by one of its
    attempts. *)
Lemma retry_solved (P : PolynomialModel) (m : ModelTag) (phi : PhaseSequence) :
  forall budget k, retry K budget k P m = Solved phi ->
                   exists k', attempt K k' P m = inl phi.
Proof.
  induction budget as [| budget IH]; intros k H; simpl in H;
    destruct (attempt K k P m) as [phi' | r] eqn:Hattempt.
  - injection H as <-. eauto.
  - discriminate H.
  - injection H as <-. eauto.
  - eapply IH. exact H.
Qed.

Lemma solve_solved (P : PolynomialModel) (m : ModelTag) (max_retries : nat)
    (phi : PhaseSequence) :
  solve K P m max_retries = Solved phi ->
  well_formed K P = true /\ exists k, attempt K k P m = inl phi.
Proof.
  unfold solve. destruct (well_formed K P); [| discriminate].
  intros H. split; [reflexivity |]. eapply retry_solved. exact H.
Qed.

End Facts.

(** C6: a phase sequence that [solve] produces from a polynomial of
    degree d has exactly d + 1 angles, as many as the polynomial has
    coefficients; it carries the tag it was solved for, and the
    phase-alignment transform keeps its length. *)
Theorem solved_sequence_length
    (K : Kernels) (P : PolynomialModel) (m : ModelTag) (max_retries : nat)
    (phi : PhaseSequence) :
  solve K P m max_retries = Solved phi ->
  length (angles phi) = (degree P + 1)%nat /\
  length (angles phi) = length (coefficients P) /\
  tag phi = m /\
  forall offset, length (angles (align offset phi)) = (degree P + 1)%nat.
Proof.
  intros H. apply solve_solved in H. destruct H as [Hwf [k Hk]].
  apply attempt_accepted in Hk. destruct Hk as (Htag & Hlen).
  unfold well_formed in Hwf.
  apply andb_true_iff in Hwf. destruct Hwf as [Hwf _].
  apply andb_true_iff in Hwf. destruct Hwf as [Hcoefs _].
  apply Nat.eqb_eq in Hcoefs.
  rewrite Nat.add_1_r. repeat split.
  - exact Hlen.
  - congruence.
  - exact Htag.
  - intros offset. simpl. rewrite length_map. exact Hlen.
Qed.

(** The hypothesis of C6 holds for P(a) = a, of degree 1. *)
Lemma solved_sequence_length_witness :
  solve exact_kernels linear Wx 0 = Solved {| angles := [0; 0]; tag := Wx |} /\
  length (angles {| angles := [0; 0]; tag := Wx |}) = (degree linear + 1)%nat.
Proof.
  split; [reflexivity |].
  apply (solved_sequence_length exact_kernels linear Wx 0). reflexivity.
Defined.

End AngleSolverFacts.

(** ** Every call takes one of the paths *)

Lemma given_coefs_lift (E : Env) (a : Namespace) :
  match poly a with
  | PolyStr s => lift (float_list E s)
  | PolyList l => ret l
  | PolyNone => ret []
  end = lift (given_coefs E a).
Proof. unfold given_coefs. destruct (poly a); reflexivity. Qed.

(** The monad laws that the proofs below use. *)
Lemma bind_assoc {A B C : Type} (m : run A) (k : A -> run B) (h : B -> run C) :
  bind (bind m k) h = bind m (fun x => bind (k x) h).
Proof.
  destruct m as [t [x | v | s | e]]; simpl; try reflexivity.
  destruct (k x) as [t1 [y | v | s | e]]; simpl; try reflexivity.
  destruct (h y) as [t2 o]. now rewrite app_assoc.
Qed.

Lemma bind_ret_l {A B : Type} (x : A) (k : A -> run B) : bind (ret x) k = k x.
Proof. unfold ret, bind. destruct (k x); reflexivity. Qed.

(** A trace in front of what follows. *)
Definition after (t : list event) (x : list event * py_result) : list event * py_result :=
  (t ++ fst x, snd x).

Lemma finish_call_inl {A : Type} (ev : event) (x : A) (k : A -> run unit) :
  finish (bind (call ev (inl x)) k) = after [ev] (finish (k x)).
Proof. simpl. destruct (k x) as [t [[] | v | s | e]]; reflexivity. Qed.

Lemma finish_call_inr {A : Type} (ev : event) (e : exn) (k : A -> run unit) :
  finish (bind (call ev (inr e)) k) = ([ev], Exception e).
Proof. reflexivity. Qed.

Lemma finish_print (text : string) (k : unit -> run unit) :
  finish (bind (print text) k) = after [EPrint text] (finish (k tt)).
Proof. simpl. destruct (k tt) as [t [[] | v | s | e]]; reflexivity. Qed.

Lemma finish_lift_inl {A : Type} (x : A) (k : A -> run unit) :
  finish (bind (lift (inl x)) k) = finish (k x).
Proof. simpl. destruct (k x) as [t [[] | v | s | e]]; reflexivity. Qed.

(** The end of a command, from the plot on. *)
Lemma completes_finish (E : Env) (a : Namespace) (phiset : PhaseSequence)
    (pcoefs : option (list pyfloat)) (m : string) :
  exists t r,
    completes E a phiset pcoefs m t r /\
    finish (plot_response E a phiset pcoefs m ;;; return_phiset a (Some phiset))
    = (t, r).
Proof.
  unfold plot_response. fold (plot_call_of a phiset pcoefs m).
  destruct (plot a) eqn:Hplot.
  - cbv zeta.
    destruct (PlotQSPResponse E (plot_call_of a phiset pcoefs m)) as [[] | e] eqn:Hp;
      simpl.
    + destruct (return_angles a) eqn:Hr; simpl;
        do 2 eexists; (split; [eapply completes_with_plot; eauto |]);
        try (unfold returned; rewrite Hr); reflexivity.
    + do 2 eexists. split; [eapply completes_plot_raises; eauto | reflexivity].
  - simpl.
    destruct (return_angles a) eqn:Hr; simpl;
      do 2 eexists; (split; [eapply completes_without_plot; eauto |]);
      try (unfold returned; rewrite Hr); reflexivity.
Qed.

Ltac step_run :=
  repeat first
    [ rewrite bind_assoc
    | rewrite finish_call_inl
    | rewrite finish_call_inr
    | rewrite finish_print
    | rewrite finish_lift_inl
    | rewrite bind_ret_l ].

Ltac finish_tail E a :=
  match goal with
  | |- context [finish (bind (plot_response E a ?p ?c ?m) _)] =>
      let t := fresh "t" in
      let r := fresh "r" in
      let Hc := fresh "Hc" in
      let Hf := fresh "Hf" in
      destruct (completes_finish E a p c m) as (t & r & Hc & Hf);
      rewrite Hf; simpl
  end.

(** [CommandLine] goes one of the ways of [runs]. *)
Lemma CommandLine_runs (E : Env) (a : Namespace) :
  runs E a (trace_of (CommandLine E a)) (result_of (CommandLine E a)).
Proof.
  unfold trace_of, result_of, CommandLine, dispatch.
  destruct (String.eqb_spec (cmd a) "poly2angles") as [H1 | H1].
  { unfold cmd_poly2angles, call_solver. rewrite given_coefs_lift.
    destruct (truthy_poly (poly a)) eqn:Hp; simpl negb; cbv iota.
    - destruct (given_coefs E a) as [coefs | e] eqn:Hg.
      + step_run.
        destruct (QuantumSignalProcessingPhases E _) as [phiset | e] eqn:Hs; step_run.
        * finish_tail E a. eapply run_poly2angles; eauto.
        * simpl. eapply run_poly2angles_solver_raises; eauto.
      + simpl. eapply run_poly2angles_bad_float; eauto.
    - simpl. apply run_poly2angles_exit; auto. }
  destruct (String.eqb_spec (cmd a) "hamsim") as [H2 | H2].
  { unfold cmd_hamsim. cbv zeta.
    destruct (ham_sim E _ _ _) as [[phiset telapsed] | e] eqn:Hh; step_run.
    - cbv zeta. cbn [fst]. finish_tail E a. eapply run_hamsim; eauto.
    - simpl. eapply run_hamsim_raises; eauto. }
  destruct (String.eqb_spec (cmd a) "invert") as [H3 | H3].
  { unfold cmd_invert, call_solver.
    destruct (PolyOneOverX E _ _ _ _) as [pcoefs | e] eqn:Hb; step_run.
    - destruct (QuantumSignalProcessingPhases E _) as [phiset | e] eqn:Hs; step_run.
      + finish_tail E a. eapply run_invert; eauto.
      + simpl. eapply run_invert_solver_raises; eauto.
    - simpl. eapply run_invert_builder_raises; eauto. }
  destruct (String.eqb_spec (cmd a) "poly_erf") as [H4 | H4].
  { unfold cmd_poly_erf, call_solver.
    destruct (PolyErf E _ _) as [pcoefs | e] eqn:Hb; step_run.
    - destruct (QuantumSignalProcessingPhases E _) as [phiset | e] eqn:Hs; step_run.
      + finish_tail E a. eapply run_poly_erf; eauto.
      + simpl. eapply run_poly_erf_solver_raises; eauto.
    - simpl. eapply run_poly_erf_builder_raises; eauto. }
  destruct (String.eqb_spec (cmd a) "angles") as [H5 | H5].
  { unfold cmd_angles.
    destruct (seqname_unknown E a) eqn:Hu.
    - simpl. apply run_angles_unknown; auto.
    - pose proof Hu as Hu'. unfold seqname_unknown, dict_mem in Hu'.
      destruct (seqname a) as [n |] eqn:Hn;
        [| simpl in Hu'; discriminate Hu'].
      destruct (dict_get (phase_generators E) n) as [pg |] eqn:Hget;
        [| rewrite orb_true_r in Hu'; discriminate Hu'].
      destruct (truthy_list (seqargs a)) eqn:Hargs; simpl negb; cbv iota.
      + destruct (seqargs a) as [[| x xs] |] eqn:Hxs; try discriminate Hargs.
        destruct (generate pg (x :: xs)) as [phiset | e] eqn:Hgen; step_run.
        * finish_tail E a. eapply run_angles; eauto. discriminate.
        * simpl. eapply run_angles_generator_raises; eauto. discriminate.
      + simpl. eapply run_angles_help; eauto. }
  unfold cmd_unknown, load_global. simpl.
  apply run_unknown_command. simpl. intuition congruence.
Qed.

Ltac invert_completes :=
  repeat match goal with
         | H : completes _ _ _ _ _ _ _ |- _ => inversion H; subst; clear H
         end.

(** Case analysis on the path that a call took. *)
Ltac paths E a :=
  let Hr := fresh "Hr" in
  pose proof (CommandLine_runs E a) as Hr;
  unfold trace_of, result_of in *;
  destruct (CommandLine E a) as [? ?];
  cbn [fst snd] in *;
  inversion Hr; subst; clear Hr; invert_completes.

(** ** [VAction]: counting [-v] *)

(** Lines 12-16: after n + 1 calls of the action with an empty [values]
    (what an option declared with [nargs=0] is called with), the
    verbosity is the earlier one (0 when unset) plus n + 1. *)
Theorem VAction_counts_occurrences (a : Namespace) (n : nat) :
  verbose (Nat.iter (S n) (fun b => VAction_call b []) a)
  = Some (curval a + Z.of_nat (S n))%Z.
Proof.
  induction n as [| n IH].
  - change (Nat.iter 1 (fun b => VAction_call b []) a) with (VAction_call a []).
    unfold VAction_call, set_verbose, py_count. cbn [verbose count_occ].
    f_equal. lia.
  - change (Nat.iter (S (S n)) (fun b => VAction_call b []) a)
      with (VAction_call (Nat.iter (S n) (fun b => VAction_call b []) a) []).
    unfold VAction_call at 1. unfold set_verbose at 1. cbn [verbose].
    unfold curval at 1. rewrite IH. unfold py_count. simpl count_occ.
    f_equal. lia.
Qed.

(** Lines 12-16 and 79-150: [CommandLine] reads neither [args.verbose]
    nor [args.output]: whatever [-v] and [-o] are set to, and however
    often the action ran, the trace and the result are the same. *)
Theorem verbose_and_output_are_unused (E : Env) (a : Namespace)
    (v : option Z) (o : string) (values : list string) :
  CommandLine E (set_output (set_verbose a v) o) = CommandLine E a /\
  CommandLine E (VAction_call a values) = CommandLine E a.
Proof. destruct a. split; reflexivity. Qed.

(** ** [float_list]: splitting at commas *)

Lemma split_comma_not_nil (s : string) : split_comma s <> [].
Proof.
  destruct s as [| c s]; simpl; [discriminate |].
  destruct (Ascii.eqb c ","); [discriminate |].
  destruct (split_comma s); discriminate.
Qed.

Lemma concat_cons_string (c : ascii) (piece : string) (pieces : list string) :
  String.concat "," (String c piece :: pieces)
  = String c (String.concat "," (piece :: pieces)).
Proof. destruct pieces; reflexivity. Qed.

(** Lines 53-54: joining the pieces of [value.split(",")] with commas
    gives [value] back. *)
Theorem join_split_comma (s : string) :
  String.concat "," (split_comma s) = s.
Proof.
  induction s as [| c s IH]; [reflexivity |].
  simpl. destruct (Ascii.eqb_spec c ",") as [-> | Hc].
  - destruct (split_comma s) as [| piece pieces] eqn:Hs.
    + now apply split_comma_not_nil in Hs.
    + change (String.concat "," ("" :: piece :: pieces))
        with (String "," (String.concat "," (piece :: pieces))).
      now rewrite IH.
  - destruct (split_comma s) as [| piece pieces] eqn:Hs.
    + now apply split_comma_not_nil in Hs.
    + rewrite concat_cons_string. now rewrite IH.
Qed.

Lemma split_comma_no_comma (s : string) :
  count_commas s = O -> split_comma s = [s].
Proof.
  induction s as [| c s IH]; [reflexivity |].
  simpl. destruct (Ascii.eqb c ","); [discriminate |].
  intros H. now rewrite (IH H).
Qed.

Lemma split_comma_app (p s : string) :
  count_commas p = O ->
  split_comma (p ++ String "," s) = p :: split_comma s.
Proof.
  induction p as [| c p IH]; intros H.
  - reflexivity.
  - simpl in H. change ((String c p ++ String "," s)%string)
      with (String c (p ++ String "," s)).
    simpl. destruct (Ascii.eqb c ","); [discriminate |].
    now rewrite (IH H).
Qed.

(** Lines 53-54: conversely, splitting a comma-joined list of pieces
    that hold no comma themselves gives exactly those pieces. *)
Theorem split_join_comma (pieces : list string) :
  pieces <> [] ->
  Forall (fun piece => count_commas piece = O) pieces ->
  split_comma (String.concat "," pieces) = pieces.
Proof.
  induction pieces as [| piece rest IH]; intros Hne Hall; [contradiction |].
  inversion Hall as [| ? ? Hpiece Hrest]; subst.
  destruct rest as [| piece' rest'].
  - simpl. now apply split_comma_no_comma.
  - change (String.concat "," (piece :: piece' :: rest'))
      with ((piece ++ String "," (String.concat "," (piece' :: rest')))%string).
    rewrite split_comma_app by assumption.
    f_equal. apply IH; [discriminate | assumption].
Qed.

(** The pieces ["-1"; "0"; "2"] satisfy the hypotheses. *)
Lemma split_join_comma_witness :
  split_comma (String.concat "," ["-1"; "0"; "2"]) = ["-1"; "0"; "2"].
Proof.
  apply (split_join_comma ["-1"; "0"; "2"]).
  - discriminate.
  - repeat constructor.
Defined.

Lemma split_comma_length (s : string) :
  length (split_comma s) = S (count_commas s).
Proof.
  induction s as [| c s IH]; [reflexivity |].
  simpl. destruct (Ascii.eqb c ","); [simpl; now rewrite IH |].
  destruct (split_comma s); [discriminate IH | exact IH].
Qed.

Lemma split_comma_pieces_hold_no_comma (s : string) :
  Forall (fun piece => count_commas piece = O) (split_comma s).
Proof.
  induction s as [| c s IH]; [repeat constructor |].
  simpl. destruct (Ascii.eqb c ",") eqn:Hc.
  - constructor; [reflexivity | exact IH].
  - destruct (split_comma s) as [| piece pieces]; [repeat constructor; simpl; now rewrite Hc |].
    inversion IH as [| ? ? Hpiece Hrest]; subst.
    constructor; [simpl; now rewrite Hc | exact Hrest].
Qed.

(** Lines 53-54: [value.split(",")] has one piece more than [value] has
    commas, so it is never empty, and no piece holds a comma. *)
Theorem split_comma_pieces (s : string) :
  length (split_comma s) = S (count_commas s) /\
  Forall (fun piece => count_commas piece = O) (split_comma s).
Proof.
  split; [apply split_comma_length | apply split_comma_pieces_hold_no_comma].
Qed.

Lemma map_result_inl {A B : Type} (f : A -> result B) (xs : list A) (ys : list B) :
  map_result f xs = inl ys <-> Forall2 (fun x y => f x = inl y) xs ys.
Proof.
  revert ys. induction xs as [| x xs IH]; intros ys; simpl.
  - split; intros H.
    + injection H as <-. constructor.
    + inversion H. reflexivity.
  - split; intros H.
    + destruct (f x) as [y | e] eqn:Hx; [| discriminate H].
      destruct (map_result f xs) as [ys' | e] eqn:Hxs; [| discriminate H].
      injection H as <-. constructor; [exact Hx | now apply IH].
    + inversion H as [| ? y ? ys' Hx Hxs]; subst.
      rewrite Hx. apply IH in Hxs. now rewrite Hxs.
Qed.

Lemma map_result_inr {A B : Type} (f : A -> result B) (xs : list A) (e : exn) :
  map_result f xs = inr e <->
  exists before x rest,
    xs = before ++ x :: rest /\
    Forall (fun x' => exists y, f x' = inl y) before /\
    f x = inr e.
Proof.
  induction xs as [| x xs IH]; simpl.
  - split; [discriminate |].
    intros (before & x & rest & H & _). destruct before; discriminate H.
  - split.
    + intros H. destruct (f x) as [y | e'] eqn:Hx.
      * destruct (map_result f xs) as [ys | e''] eqn:Hxs; [discriminate H |].
        injection H as ->.
        destruct (proj1 IH eq_refl) as (before & x' & rest & -> & Hb & Hx').
        exists (x :: before), x', rest. repeat split; auto.
        constructor; eauto.
      * injection H as ->. exists [], x, xs. repeat split; auto.
    + intros (before & x' & rest & Heq & Hb & Hx').
      destruct before as [| b before]; simpl in Heq; injection Heq as -> ->.
      * now rewrite Hx'.
      * inversion Hb as [| ? ? [y Hy] Hb']; subst. rewrite Hy.
        assert (Hxs : map_result f (before ++ x' :: rest) = inr e)
          by (apply IH; eauto 6).
        now rewrite Hxs.
Qed.

Lemma float_list_length (E : Env) (value : string) (xs : list pyfloat) :
  float_list E value = inl xs -> length xs = S (count_commas value).
Proof.
  unfold float_list. intros H. apply map_result_inl in H.
  apply Forall2_length in H. now rewrite split_comma_length in H.
Qed.

(** Lines 53-54: [float_list] answers with a list exactly when [float]
    accepts every piece between the commas, and then the list holds the
    floats of the pieces, in order: one more than there are commas, so
    never an empty list. *)
Theorem float_list_parses_every_piece (E : Env) (value : string) (xs : list pyfloat) :
  (float_list E value = inl xs <->
   Forall2 (fun piece x => py_float E piece = inl x) (split_comma value) xs)
  /\ (float_list E value = inl xs ->
      length xs = S (count_commas value) /\ xs <> []).
Proof.
  split; [unfold float_list; apply map_result_inl |].
  intros H. apply float_list_length in H.
  split; [exact H |]. intros ->. discriminate H.
Qed.

(** Lines 53-54: [float_list] raises exactly the exception of the first
    piece that [float] rejects; the pieces before it were accepted. *)
Theorem float_list_raises_first_error (E : Env) (value : string) (e : exn) :
  float_list E value = inr e <->
  exists before piece rest,
    split_comma value = before ++ piece :: rest /\
    Forall (fun p => exists x, py_float E p = inl x) before /\
    py_float E piece = inr e.
Proof. unfold float_list. apply map_result_inr. Qed.

(** ** [CommandLine]: a string for [args.poly] *)

(** Lines 82-89: handing [CommandLine] the coefficients as a non-empty
    string gives the same trace and result as handing it the list that
    [float_list] makes of that string, whatever the command. *)
Theorem poly_string_as_list (E : Env) (a : Namespace) (s : string) (l : list pyfloat) :
  s <> "" ->
  float_list E s = inl l ->
  CommandLine E (set_poly a (PolyStr s)) = CommandLine E (set_poly a (PolyList l)).
Proof.
  intros Hs Hl.
  assert (Hne : l <> []) by (intros ->; apply float_list_length in Hl; discriminate Hl).
  unfold CommandLine, dispatch. cbn [cmd set_poly].
  destruct (cmd a =? "poly2angles") eqn:H1.
  - unfold cmd_poly2angles. cbn [poly set_poly model].
    destruct s as [| c s]; [contradiction |].
    destruct l as [| x l]; [contradiction |].
    cbn [truthy_poly truthy_str truthy_list negb]. cbv iota.
    rewrite Hl. reflexivity.
  - reflexivity.
Qed.

(** The hypotheses hold for the string "-1,0,2". *)
Lemma poly_string_as_list_witness :
  float_list reading_env "-1,0,2" = inl [(-1)%float; 0%float; 2%float] /\
  CommandLine reading_env (set_poly (default_args "poly2angles") (PolyStr "-1,0,2"))
  = CommandLine reading_env
      (set_poly (default_args "poly2angles") (PolyList [(-1)%float; 0%float; 2%float])).
Proof.
  split; [reflexivity |].
  apply (poly_string_as_list reading_env (default_args "poly2angles") "-1,0,2"
           [(-1)%float; 0%float; 2%float]).
  - discriminate.
  - reflexivity.
Defined.

(** ** [CommandLine]: leaving through [sys.exit] *)

(** From line 79 on, [CommandLine] leaves through [sys.exit] exactly
    when the command is [poly2angles] and [args.poly] is absent or empty,
    and the status is then 0. *)
Lemma body_exits_exactly_without_coefficients (E : Env) (a : Namespace) :
  ((exists status, result_of (CommandLine E a) = SystemExit status) <->
   cmd a = "poly2angles" /\ truthy_poly (poly a) = false)
  /\ (forall status, result_of (CommandLine E a) = SystemExit status -> status = 0%Z).
Proof.
  split; [split |].
  - intros [status H]. paths E a; unfold returned in *; try congruence; auto.
  - intros [Hcmd Hpoly]. paths E a; try congruence; eauto.
    exfalso. match goal with H : ~ In _ known_commands |- _ => apply H end.
    rewrite Hcmd. simpl. auto.
  - intros status H. paths E a; unfold returned in *; congruence.
Qed.

Lemma body_exit_status (E : Env) (a : Namespace) (status : Z) :
  result_of (CommandLine E a) = SystemExit status <->
  status = 0%Z /\ cmd a = "poly2angles" /\ truthy_poly (poly a) = false.
Proof.
  destruct (body_exits_exactly_without_coefficients E a) as [Hiff Hzero].
  split.
  - intros H. split; [now apply Hzero |]. apply Hiff. eauto.
  - intros (-> & Hcmd & Hpoly).
    destruct (proj2 Hiff (conj Hcmd Hpoly)) as [status H].
    now rewrite (Hzero status H) in H.
Qed.

(** Lines 20-150: a call of [CommandLine] leaves the process in exactly
    two ways: no namespace is handed in and argparse leaves while it
    parses ([parser.parse_args], line 77), with the status argparse
    chooses; or the namespace in effect has the command [poly2angles] and
    no coefficients ([sys.exit(0)], line 85), with status 0.  Neither
    happens when the version lookup of lines 24-26 raises. *)
Theorem exits_by_argparse_or_without_coefficients
    (H : Host) (E : Env) (args : option Namespace) (arglist : option (list string))
    (status : Z) :
  result_of (CommandLine_entry H E args arglist) = SystemExit status <->
  exists v, pkg_version H = inl v /\
    ((args = None /\ parse_args H arglist = inr status)
     \/ (status = 0%Z /\
         exists a, namespace_of H args arglist = Some a /\
                   cmd a = "poly2angles" /\ truthy_poly (poly a) = false)).
Proof.
  unfold CommandLine_entry, namespace_of.
  destruct (pkg_version H) as [v | e].
  - destruct args as [a |].
    + rewrite body_exit_status. split.
      * intros (-> & Hcmd & Hpoly). exists v. split; [reflexivity |]. right. eauto.
      * intros (v' & _ & [[Hargs _] | (-> & a' & Ha & Hcmd & Hpoly)]);
          [discriminate Hargs |].
        injection Ha as <-. auto.
    + destruct (parse_args H arglist) as [a | st].
      * rewrite body_exit_status. split.
        -- intros (-> & Hcmd & Hpoly). exists v. split; [reflexivity |]. right. eauto.
        -- intros (v' & _ & [[_ Hparse] | (-> & a' & Ha & Hcmd & Hpoly)]);
             [discriminate Hparse |].
           injection Ha as <-. auto.
      * simpl. split.
        -- intros Heq. injection Heq as ->. exists v. auto.
        -- intros (v' & _ & [[_ Hparse] | (_ & a' & Ha & _)]);
             [now injection Hparse as -> | discriminate Ha].
  - simpl. split; [discriminate |].
    intros (v & Hv & _). discriminate Hv.
Qed.

(** Which event of a listed trace a membership speaks of. *)
Ltac in_cases :=
  repeat match goal with
         | H : In _ [] |- _ => destruct H
         | H : In _ (_ :: _) |- _ => destruct H as [H | H]
         | H : @eq event _ ?v |- _ => is_var v; subst v
         | H : EPrint _ = _ |- _ => first [discriminate H | injection H as ?; subst]
         | H : ESolve _ = _ |- _ => first [discriminate H | injection H as ?; subst]
         | H : EPlot _ = _ |- _ => first [discriminate H | injection H as ?; subst]
         | H : EHamSim _ _ _ = _ |- _ => first [discriminate H | injection H as ? ? ?; subst]
         | H : EPolyOneOverX _ _ _ _ = _ |- _ =>
             first [discriminate H | injection H as ? ? ? ?; subst]
         | H : EPolyErf _ _ = _ |- _ => first [discriminate H | injection H as ? ?; subst]
         | H : EGenerate _ _ = _ |- _ => first [discriminate H | injection H as ? ?; subst]
         end.

(** ** [CommandLine]: plotting *)

(** Lines 90-95, 99-104, 109-114, 120-125, 137-142: without [--plot]
    nothing is plotted; and a plot call, when there is one, is the last
    thing [CommandLine] does and the only plot call of the run. *)
Theorem plot_is_optional_and_last (E : Env) (a : Namespace) :
  (plot a = false ->
   Forall (fun ev => is_plot ev = false) (trace_of (CommandLine E a)))
  /\ forall c, In (EPlot c) (trace_of (CommandLine E a)) ->
       exists before,
         trace_of (CommandLine E a) = before ++ [EPlot c] /\
         Forall (fun ev => is_plot ev = false) before.
Proof.
  split.
  - intros Hplot. paths E a; try congruence; repeat constructor.
  - intros c Hin. paths E a; in_cases;
      match goal with
      | |- exists before, ?t = _ /\ _ =>
          exists (removelast t); split; [reflexivity | repeat constructor]
      end.
Qed.

(** ** [CommandLine]: what reaches the engine *)

(** Lines 79-142: every call that leaves [CommandLine] is made by the
    command it belongs to and carries that run's arguments: the solver is
    called by [poly2angles] (with the coefficients given), [invert] and
    [poly_erf] only; [ham_sim] gets [args.tau], 1.0e-4 and 0.9999; the
    inversion builder gets [args.kappa], [args.epsilon] and both flags
    set; the erf builder gets [args.degree] and [args.kappa]; a generator
    is one of the registry and gets [args.seqargs], which is not empty;
    and a plot call is made under [--plot] only and carries the display
    options of the run, with [show] the negation of [--hide-plot]. *)
Theorem calls_carry_the_arguments (E : Env) (a : Namespace) :
  Forall (call_from_args E a) (trace_of (CommandLine E a)).
Proof.
  paths E a; repeat (apply Forall_cons || apply Forall_nil); simpl;
    try solve [intuition auto];
    try solve [repeat split; auto; reflexivity];
    repeat split; auto; unfold dict_mem;
    match goal with H : dict_get _ _ = Some _ |- _ => now rewrite H end.
Qed.

(** ** [CommandLine]: exceptions of the engine *)

(** Use what the environment answered to a call. *)
Ltac answers :=
  unfold raises, error_of in *;
  repeat match goal with
         | Heq : ?x = Some _, H : context [match ?x with _ => _ end] |- _ =>
             rewrite Heq in H
         | Heq : ?x = inl _, H : context [match ?x with _ => _ end] |- _ =>
             rewrite Heq in H
         | Heq : ?x = inr _, H : context [match ?x with _ => _ end] |- _ =>
             rewrite Heq in H
         end.

(** Lines 79-150: [CommandLine] has no handler: a call that raises is
    the last thing it does, and the exception is what its caller gets. *)
Theorem first_failure_ends_the_run (E : Env) (a : Namespace) (ev : event) (e : exn) :
  In ev (trace_of (CommandLine E a)) ->
  raises E ev = Some e ->
  result_of (CommandLine E a) = Exception e /\
  exists before, trace_of (CommandLine E a) = before ++ [ev].
Proof.
  intros Hin Hraise.
  paths E a; in_cases; answers; try discriminate Hraise;
    injection Hraise as <-;
    (split; [reflexivity |]);
    match goal with
    | |- exists before, ?t = _ => exists (removelast t); reflexivity
    end.
Qed.

(** The hypotheses hold when the solver gives up on [poly2angles]. *)
Lemma first_failure_ends_the_run_witness :
  result_of (CommandLine failing_env (args_full "poly2angles"))
  = Exception (ConvergenceError 2) /\
  exists before,
    trace_of (CommandLine failing_env (args_full "poly2angles"))
    = before ++ [ESolve {| sc_poly := [(-1)%float; 0%float; 2%float];
                           sc_model := Some "Wx"; sc_max_nretries := None |}].
Proof.
  apply (first_failure_ends_the_run failing_env (args_full "poly2angles")).
  - right. left. reflexivity.
  - reflexivity.
Defined.

(** Lines 79-150: an exception that leaves [CommandLine] has one of three
    origins: the call made last, which raised it; the [float] of line 87,
    on a string handed in for [args.poly]; or line 146, for a command
    that is not one of the five, and then it is the [NameError] of
    [cmd].  In the last two cases nothing was printed or called. *)
Theorem exception_origin (E : Env) (a : Namespace) (e : exn) :
  result_of (CommandLine E a) = Exception e ->
  (exists before ev,
     trace_of (CommandLine E a) = before ++ [ev] /\ raises E ev = Some e)
  \/ (trace_of (CommandLine E a) = [] /\
      cmd a = "poly2angles" /\ exists s, poly a = PolyStr s /\ float_list E s = inr e)
  \/ (trace_of (CommandLine E a) = [] /\
      ~ In (cmd a) known_commands /\ e = NameError "cmd").
Proof.
  intros Hres.
  paths E a; unfold returned in *; try discriminate;
    repeat match goal with
           | H : Exception _ = Exception _ |- _ => injection H as <-
           end;
    try (left;
         match goal with
         | |- exists before ev, ?t = _ /\ _ =>
             exists (removelast t), (last t (EPrint ""));
             split; [reflexivity |]
         end;
         cbn [last]; unfold raises, error_of;
         repeat match goal with
                | H : ?x = _ |- context [match ?x with _ => _ end] => rewrite H
                end;
         reflexivity).
  - right. left. repeat split; auto.
    unfold given_coefs in *. destruct (poly a) as [| l | s]; try discriminate.
    eauto.
  - right. right. auto.
Qed.

(** The hypothesis holds when the solver gives up on [poly2angles]. *)
Lemma exception_origin_witness :
  result_of (CommandLine failing_env (args_full "poly2angles"))
  = Exception (ConvergenceError 2) /\
  ((exists before ev,
      trace_of (CommandLine failing_env (args_full "poly2angles")) = before ++ [ev] /\
      raises failing_env ev = Some (ConvergenceError 2))
   \/ (trace_of (CommandLine failing_env (args_full "poly2angles")) = [] /\
       cmd (args_full "poly2angles") = "poly2angles" /\
       exists s, poly (args_full "poly2angles") = PolyStr s /\
                 float_list failing_env s = inr (ConvergenceError 2))
   \/ (trace_of (CommandLine failing_env (args_full "poly2angles")) = [] /\
       ~ In (cmd (args_full "poly2angles")) known_commands /\
       ConvergenceError 2 = NameError "cmd")).
Proof.
  split; [reflexivity |].
  apply (exception_origin failing_env (args_full "poly2angles")). reflexivity.
Defined.

(** ** [CommandLine]: the sequence handed back *)

(** Lines 79-150: a phase sequence that [CommandLine] returns was asked
    for with [--return-angles] and is, unchanged, the answer of the one
    producer its command called: the solver, [ham_sim] or a generator of
    the registry; and if the run plotted, it plotted that sequence. *)
Theorem returned_sequence_is_the_producers (E : Env) (a : Namespace) (p : PhaseSequence) :
  result_of (CommandLine E a) = Value (Some p) ->
  return_angles a = true /\
  ((exists c, In (ESolve c) (trace_of (CommandLine E a)) /\
              QuantumSignalProcessingPhases E c = inl p)
   \/ (exists t eps suc telapsed,
         In (EHamSim t eps suc) (trace_of (CommandLine E a)) /\
         ham_sim E t eps suc = inl (p, telapsed))
   \/ (exists n pg xs,
         In (EGenerate n xs) (trace_of (CommandLine E a)) /\
         dict_get (phase_generators E) n = Some pg /\
         generate pg xs = inl p))
  /\ forall c, In (EPlot c) (trace_of (CommandLine E a)) -> pc_phiset c = p.
Proof.
  intros Hres.
  paths E a; unfold returned in *; try discriminate;
    match goal with
    | H : Value (Some _) = Value _ |- _ =>
        destruct (return_angles a) eqn:Hflag; [| discriminate H];
        injection H as ->
    end;
    (split; [reflexivity |]);
    (split;
     [ first
         [ left; eexists; split; [| eassumption]; simpl; tauto
         | right; left; do 4 eexists; split; [| eassumption]; simpl; tauto
         | right; right; do 3 eexists; split; [| split; eassumption]; simpl; tauto ]
     | intros c Hin; in_cases; reflexivity ]).
Qed.

(** The hypothesis holds for [invert] with [--plot --return-angles]. *)
Lemma returned_sequence_is_the_producers_witness :
  result_of (CommandLine test_env (args_full "invert")) = Value (Some [0%float; 0%float]) /\
  return_angles (args_full "invert") = true /\
  forall c, In (EPlot c) (trace_of (CommandLine test_env (args_full "invert"))) ->
            pc_phiset c = [0%float; 0%float].
Proof.
  split; [reflexivity |].
  pose proof (returned_sequence_is_the_producers test_env (args_full "invert")
                [0%float; 0%float] eq_refl) as H.
  split; [exact (proj1 H) | exact (proj2 (proj2 H))].
Defined.

(** ** [CommandLine]: reaching a generator *)

(** Lines 127-135: a generator is called exactly when the command is
    [angles], the sequence name is a key of the registry, and sequence
    arguments are given; the call is then made with [args.seqargs] on the
    generator registered under [args.seqname]. *)
Theorem generator_runs_exactly_on_request (E : Env) (a : Namespace) :
  ((exists n xs, In (EGenerate n xs) (trace_of (CommandLine E a))) <->
   cmd a = "angles" /\ seqname_unknown E a = false /\ truthy_list (seqargs a) = true)
  /\ forall n xs, In (EGenerate n xs) (trace_of (CommandLine E a)) ->
       seqname a = Some n /\ seqargs a = Some xs /\
       dict_mem (phase_generators E) n = true.
Proof.
  split; [split |].
  - intros (n & xs & Hin). paths E a; in_cases.
    + repeat split; auto.
      match goal with H : seqargs a = Some ?l |- _ => rewrite H; destruct l end;
        [contradiction | reflexivity].
    + repeat split; auto.
      match goal with H : seqargs a = Some ?l |- _ => rewrite H; destruct l end;
        [contradiction | reflexivity].
    + repeat split; auto.
      match goal with H : seqargs a = Some ?l |- _ => rewrite H; destruct l end;
        [contradiction | reflexivity].
    + repeat split; auto.
      match goal with H : seqargs a = Some ?l |- _ => rewrite H; destruct l end;
        [contradiction | reflexivity].
  - intros (Hcmd & Hknown & Hargs).
    paths E a; try congruence;
      try (do 2 eexists; simpl; left; reflexivity).
    exfalso. match goal with H : ~ In _ known_commands |- _ => apply H end.
    rewrite Hcmd. simpl. tauto.
  - intros n xs Hin. paths E a; in_cases; repeat split; auto; unfold dict_mem;
      match goal with H : dict_get _ _ = Some _ |- _ => now rewrite H end.
Qed.

(** ** [CommandLine]: what is printed *)

(** Lines 79-147: a run prints at most one line.  [hamsim], [invert] and
    a command that is not one of the five print nothing; what
    [poly2angles] prints is the request for [--poly] or the coefficients
    it works with, never the phase angles it computes. *)
Theorem prints_at_most_one_line (E : Env) (a : Namespace) :
  (length (printed (trace_of (CommandLine E a))) <= 1)%nat
  /\ (cmd a = "hamsim" \/ cmd a = "invert" \/ ~ In (cmd a) known_commands ->
      printed (trace_of (CommandLine E a)) = [])
  /\ (cmd a = "poly2angles" ->
      forall text, In text (printed (trace_of (CommandLine E a))) ->
        text = "[pyqsp.main] must specify polynomial coeffients using --poly, e.g. --poly -1,0,2"
        \/ exists coefs, given_coefs E a = inl coefs /\
                         text = ("[pyqsp] polynomial coefficients=" ++ str_of_floats E coefs)%string).
Proof.
  split; [| split].
  - paths E a; simpl; auto.
  - intros Hcmd. paths E a; try reflexivity; exfalso;
      destruct Hcmd as [Hcmd | [Hcmd | Hcmd]]; try congruence;
      apply Hcmd;
      match goal with H : cmd a = _ |- _ => rewrite H end; simpl; tauto.
  - intros Hcmd text Hin.
    paths E a; try congruence; simpl in Hin;
      repeat match goal with
             | H : _ \/ _ |- _ => destruct H as [H | H]
             | H : False |- _ => destruct H
             end; subst; eauto.
Qed.

(** ** [poly2angles] when the engine answers *)

(** Lines 81-95 and 149-150: with coefficients given, a solver that
    answers, and a plot that (if asked for) does not raise,
    [poly2angles] prints the coefficients, calls the solver once with
    them and [args.model], plots under [--plot], and returns the solver's
    answer under [--return-angles] and [None] otherwise. *)
Theorem poly2angles_when_the_engine_answers
    (E : Env) (a : Namespace) (coefs : list pyfloat) (phiset : PhaseSequence) :
  cmd a = "poly2angles" ->
  truthy_poly (poly a) = true ->
  given_coefs E a = inl coefs ->
  QuantumSignalProcessingPhases E
    {| sc_poly := coefs; sc_model := Some (model a); sc_max_nretries := None |}
  = inl phiset ->
  raises E (EPlot (plot_call_of a phiset (Some coefs) (model a))) = None ->
  CommandLine E a =
  (EPrint ("[pyqsp] polynomial coefficients=" ++ str_of_floats E coefs)%string
   :: ESolve {| sc_poly := coefs; sc_model := Some (model a); sc_max_nretries := None |}
   :: (if plot a then [EPlot (plot_call_of a phiset (Some coefs) (model a))] else []),
   Value (if return_angles a then Some phiset else None)).
Proof.
  intros Hcmd Hpoly Hcoefs Hsolve Hplot.
  pose proof (CommandLine_runs E a) as Hr. unfold trace_of, result_of in Hr.
  destruct (CommandLine E a) as [t r]. cbn [fst snd] in Hr.
  inversion Hr; subst; try congruence;
    try (exfalso;
         match goal with H : ~ In _ known_commands |- _ => apply H end;
         rewrite Hcmd; simpl; tauto).
  assert (coefs0 = coefs) by congruence. subst coefs0.
  assert (phiset0 = phiset) by congruence. subst phiset0.
  invert_completes.
  - match goal with H : plot a = false |- _ => rewrite H end. reflexivity.
  - match goal with H : plot a = true |- _ => rewrite H end. reflexivity.
  - exfalso. simpl in Hplot.
    match goal with H : PlotQSPResponse E _ = inr _ |- _ => rewrite H in Hplot end.
    discriminate Hplot.
Qed.

(** The hypotheses hold for [pyqsp --poly=-1,0,2 --plot --return-angles
    poly2angles]. *)
Lemma poly2angles_when_the_engine_answers_witness :
  CommandLine test_env (args_full "poly2angles") =
  ([EPrint "[pyqsp] polynomial coefficients=[_, _, _]";
    ESolve {| sc_poly := [(-1)%float; 0%float; 2%float];
              sc_model := Some "Wx"; sc_max_nretries := None |};
    EPlot (plot_call_of (args_full "poly2angles") [0%float; 0%float; 0%float]
             (Some [(-1)%float; 0%float; 2%float]) "Wx")],
   Value (Some [0%float; 0%float; 0%float])).
Proof.
  apply (poly2angles_when_the_engine_answers test_env (args_full "poly2angles")
           [(-1)%float; 0%float; 2%float] [0%float; 0%float; 0%float]);
    reflexivity.
Defined.
